(** * forge/models/json_schema.py: the JSONSchema model, its document codec,
      its type projections and the [$ref] resolver.

    The Python module is embedded shallowly.  Documents (nested dicts, lists
    and scalars) are a tree type [value]; a dict is an association list in
    insertion order, as Python dicts are.  Exceptions are the [Raise] results
    of a small error monad; recursion that Python does not bound (a cyclic
    [$ref] graph) is bounded here by a fuel argument, whose exhaustion is the
    third result [OutOfFuel].

    Functions of the Python standard library that the module calls but does
    not define ([repr], [ast.literal_eval], [textwrap.indent]) are parameters
    of the development; a small instance of them runs the examples.  The
    validation that pydantic applies to the arguments of the model's
    constructor is embedded with its coercions (a number given as
    description becomes its text, a numeral text or a bool given as a bound
    becomes an integer).

    The file has the embedding of the code first (on documents, then the
    resolver once more over a heap of mutable objects), then the predicates
    the properties are stated with, then the properties. *)

From Stdlib Require Import String Ascii List ZArith Lia Bool Arith DecimalString.
Import ListNotations.
Open Scope string_scope.

Set Implicit Arguments.
Set Warnings "-register-all".

(** ** Results of a call: a value, a raised exception, or no result

    [OutOfFuel] says that the model has no result for the call: the depth of
    recursion that the fuel allows is used up, or the result lies outside the
    model. *)

Inductive exn : Set :=
| KeyError
| TypeError
| AttributeError
| IndexError
| ValueError
| SyntaxError
| ValidationError
| NotImplementedError.

Inductive result (A : Type) : Type :=
| Ok (a : A)
| Raise (e : exn)
| OutOfFuel.

Arguments Ok {A} a.
Arguments Raise {A} e.
Arguments OutOfFuel {A}.

Definition bind {A B : Type} (m : result A) (k : A -> result B) : result B :=
  match m with
  | Ok a => k a
  | Raise e => Raise e
  | OutOfFuel => OutOfFuel
  end.

Notation "x <- m ;; k" := (bind m (fun x => k))
  (at level 61, m at next level, right associativity).

Definition mapM {A B : Type} (f : A -> result B) : list A -> result (list B) :=
  fix go (l : list A) : result (list B) :=
    match l with
    | [] => Ok []
    | x :: xs => y <- f x ;; ys <- go xs ;; Ok (y :: ys)
    end.

Definition is_ok {A : Type} (r : result A) : bool :=
  match r with Ok _ => true | _ => false end.

(** ** Python values that occur in documents *)

Inductive value : Type :=
| VNone
| VBool (b : bool)
| VInt (z : Z)
| VStr (s : string)
| VList (l : list value)
| VDict (d : list (string * value)).

Definition dict := list (string * value).

(** [d.get(k)] / [k in d] / [d[k]] on an insertion-ordered dict. *)
Fixpoint dict_get {A : Type} (k : string) (d : list (string * A)) : option A :=
  match d with
  | [] => None
  | (k', v) :: d' => if String.eqb k k' then Some v else dict_get k d'
  end.

Definition dict_has {A : Type} (k : string) (d : list (string * A)) : bool :=
  match dict_get k d with Some _ => true | None => false end.

(** [d[k] = v]: replaces the value of an existing key in place, appends a
    new key. *)
Fixpoint dict_set {A : Type} (k : string) (v : A) (d : list (string * A))
  : list (string * A) :=
  match d with
  | [] => [(k, v)]
  | (k', v') :: d' =>
      if String.eqb k k' then (k, v) :: d' else (k', v') :: dict_set k v d'
  end.

(** [{k: f(v) for k, v in d.items()}] *)
Definition map_values {A B : Type} (f : A -> result B) (d : list (string * A))
  : result (list (string * B)) :=
  mapM (fun kv => v <- f (snd kv) ;; Ok (fst kv, v)) d.

(** Truth value of a Python object, as [if x:] tests it. *)
Definition truthy (v : value) : bool :=
  match v with
  | VNone => false
  | VBool b => b
  | VInt z => negb (Z.eqb z 0)
  | VStr s => negb (String.eqb s "")
  | VList l => match l with [] => false | _ => true end
  | VDict d => match d with [] => false | _ => true end
  end.

(** Equality of values ([==]); dicts compare as ordered here. *)
Fixpoint value_eqb (a b : value) {struct a} : bool :=
  match a, b with
  | VNone, VNone => true
  | VBool x, VBool y => Bool.eqb x y
  | VInt x, VInt y => Z.eqb x y
  | VStr x, VStr y => String.eqb x y
  | VList x, VList y =>
      (fix go (x y : list value) : bool :=
         match x, y with
         | [], [] => true
         | a :: x', b :: y' => value_eqb a b && go x' y'
         | _, _ => false
         end) x y
  | VDict x, VDict y =>
      (fix go (x y : list (string * value)) : bool :=
         match x, y with
         | [], [] => true
         | (k, a) :: x', (k', b) :: y' =>
             String.eqb k k' && value_eqb a b && go x' y'
         | _, _ => false
         end) x y
  | _, _ => false
  end.

(** ** [str.split(sep)] for a one-character separator *)

Fixpoint split (sep : ascii) (s : string) : list string :=
  match s with
  | EmptyString => [EmptyString]
  | String c s' =>
      if Ascii.eqb c sep then EmptyString :: split sep s'
      else match split sep s' with
           | [] => [String c EmptyString]
           | w :: ws => String c w :: ws
           end
  end.

(** ** The reference resolver *)

(** [ref_value[key]] with a string key. *)
Definition subscript (ref_value : value) (key : string) : result value :=
  match ref_value with
  | VDict d =>
      match dict_get key d with
      | Some v => Ok v
      | None => Raise KeyError
      end
  | _ => Raise TypeError
  end.

(** [for key in ref_path: ref_value = ref_value[key]] *)
Fixpoint follow_path (ref_path : list string) (ref_value : value)
  : result value :=
  match ref_path with
  | [] => Ok ref_value
  | key :: rest => v <- subscript ref_value key ;; follow_path rest v
  end.

(** [schema["$ref"].split("/")[2:]] *)
Definition ref_path_of (ref : value) : result (list string) :=
  match ref with
  | VStr s => Ok (skipn 2 (split "/" s))
  | _ => Raise AttributeError
  end.

Fixpoint _resolve_type_refs_in_schema (fuel : nat) (schema definitions : value)
  : result value :=
  match fuel with
  | O => OutOfFuel
  | S fuel' =>
      match schema with
      | VDict d =>
          match dict_get "$ref" d with
          | Some ref =>
              ref_path <- ref_path_of ref ;;
              ref_value <- follow_path ref_path definitions ;;
              _resolve_type_refs_in_schema fuel' ref_value definitions
          | None =>
              d' <- map_values
                      (fun v => _resolve_type_refs_in_schema fuel' v definitions)
                      d ;;
              Ok (VDict d')
          end
      | VList l =>
          l' <- mapM (fun item =>
                        _resolve_type_refs_in_schema fuel' item definitions) l ;;
          Ok (VList l')
      | _ => Ok schema
      end
  end.

Example resolve_foo :
  _resolve_type_refs_in_schema 3
    (VDict [("$ref", VStr "#/definitions/Foo")])
    (VDict [("Foo", VDict [("type", VStr "string")])])
  = Ok (VDict [("type", VStr "string")]).
Proof. reflexivity. Qed.

(** ** The schema node *)

(** [JSONSchema.Type], a [str]-valued enum. *)
Inductive Type_ : Set :=
| STRING
| ARRAY
| OBJECT
| NUMBER
| INTEGER
| BOOLEAN
| TYPE.

Definition Type_value (t : Type_) : string :=
  match t with
  | STRING => "string"
  | ARRAY => "array"
  | OBJECT => "object"
  | NUMBER => "number"
  | INTEGER => "integer"
  | BOOLEAN => "boolean"
  | TYPE => "type"
  end.

Definition Type_eqb (a b : Type_) : bool :=
  String.eqb (Type_value a) (Type_value b).

(** [Type(s)]: the member whose value is [s], if any. *)
Definition Type_of_value (s : string) : option Type_ :=
  find (fun t => String.eqb (Type_value t) s)
       [STRING; ARRAY; OBJECT; NUMBER; INTEGER; BOOLEAN; TYPE].

(** The fields of the pydantic model, with their declared defaults
    ([None], and [False] for [required]).  [default: Any = None] holds a
    Python value, [VNone] when no default was given.  Numbers are integers
    here; floats are outside the model. *)
Inductive JSONSchema : Type := mkJSONSchema {
  description : option string;
  type : option Type_;
  enum : option (list value);
  required : bool;
  default : value;
  items : option JSONSchema;
  properties : option (list (string * JSONSchema));
  additional_properties : option JSONSchema;
  minimum : option Z;
  maximum : option Z;
  minItems : option Z;
  maxItems : option Z
}.

(** [JSONSchema()] with every field at its default. *)
Definition JSONSchema_default : JSONSchema :=
  mkJSONSchema None None None false VNone None None None None None None None.

(** [v.required = b] *)
Definition set_required (b : bool) (v : JSONSchema) : JSONSchema :=
  mkJSONSchema (description v) (type v) (enum v) b (default v) (items v)
    (properties v) (additional_properties v) (minimum v) (maximum v)
    (minItems v) (maxItems v).

(** [self.type == t] *)
Definition type_is (self : JSONSchema) (t : Type_) : bool :=
  match type self with
  | Some t' => Type_eqb t' t
  | None => false
  end.

Definition of_opt_str (o : option string) : value :=
  match o with Some s => VStr s | None => VNone end.

Definition of_opt_int (o : option Z) : value :=
  match o with Some z => VInt z | None => VNone end.

Definition is_None (v : value) : bool :=
  match v with VNone => true | _ => false end.

(** [a in b] for a string [a] and a string [b]: substring test. *)
Fixpoint contains (a b : string) : bool :=
  String.prefix a b
  || match b with
     | EmptyString => false
     | String _ b' => contains a b'
     end.

(** [k in container] for a string [k]. *)
Definition py_in (k : string) (container : value) : result bool :=
  match container with
  | VList l => Ok (existsb (value_eqb (VStr k)) l)
  | VDict d => Ok (dict_has k d)
  | VStr s => Ok (contains k s)
  | _ => Raise TypeError
  end.

(** [schema.get(key)]: [None] for a missing key; only dicts have [get]. *)
Definition get (schema : value) (key : string) : result value :=
  match schema with
  | VDict d =>
      match dict_get key d with
      | Some v => Ok v
      | None => Ok VNone
      end
  | _ => Raise AttributeError
  end.

(** [schema.get(key, fallback)] *)
Definition get_or (schema : value) (key : string) (fallback : value)
  : result value :=
  match schema with
  | VDict d =>
      match dict_get key d with
      | Some v => Ok v
      | None => Ok fallback
      end
  | _ => Raise AttributeError
  end.

(** [str(z)] for an integer: its decimal numeral. *)
Definition repr_int (z : Z) : string :=
  DecimalString.NilZero.string_of_int (Z.to_int z).

(** The characters that [int(s)] skips around a numeral: the ASCII white
    space and, of the other characters below 256, the two that are spaces
    (next line, no-break space). *)
Definition int_space (c : ascii) : bool :=
  let n := nat_of_ascii c in
  ((9 <=? n)%nat && (n <=? 13)%nat) || (n =? 32)%nat || (n =? 133)%nat
  || (n =? 160)%nat.

Fixpoint lstrip (s : string) : string :=
  match s with
  | EmptyString => EmptyString
  | String c s' => if int_space c then lstrip s' else s
  end.

Fixpoint rstrip (s : string) : string :=
  match s with
  | EmptyString => EmptyString
  | String c s' =>
      match rstrip s' with
      | EmptyString => if int_space c then EmptyString else String c EmptyString
      | r => String c r
      end
  end.

Definition digit_of (c : ascii) : option Z :=
  let n := nat_of_ascii c in
  if (48 <=? n)%nat && (n <=? 57)%nat then Some (Z.of_nat (n - 48)) else None.

(** Decimal digits, with single underscores allowed between two digits. *)
Fixpoint digits_value (s : string) (acc : Z) (after_digit : bool) : option Z :=
  match s with
  | EmptyString => if after_digit then Some acc else None
  | String c s' =>
      match digit_of c with
      | Some d => digits_value s' (10 * acc + d)%Z true
      | None =>
          if Ascii.eqb c "_" && after_digit then digits_value s' acc false
          else None
      end
  end.

(** [int(s)] for a string: [None] when it raises [ValueError]. *)
Definition int_of_str (s : string) : option Z :=
  match lstrip (rstrip s) with
  | String "+" r => digits_value r 0 false
  | String "-" r => option_map Z.opp (digits_value r 0 false)
  | t => digits_value t 0 false
  end.

(** Validation of the arguments that [from_dict] passes to the model's
    constructor, as pydantic 1.x does it.  A value of the field's declared
    type is taken as it is.  [Optional[str]]: a number becomes [str(v)].
    [Optional[int]]: anything else goes through [int(v)], which reads a bool
    as 0 or 1 and a string as a numeral.  [Optional[int | float]]: the same,
    and a string that [int] rejects is tried with [float]; as floats are
    outside the model, it gives no result for such a string.  Whatever is not
    accepted is a [ValidationError]. *)
Definition validate_opt_str (v : value) : result (option string) :=
  match v with
  | VNone => Ok None
  | VStr s => Ok (Some s)
  | VInt z => Ok (Some (repr_int z))
  | VBool true => Ok (Some "True")
  | VBool false => Ok (Some "False")
  | VList _ | VDict _ => Raise ValidationError
  end.

Definition validate_opt_Type (v : value) : result (option Type_) :=
  match v with
  | VNone => Ok None
  | VStr s =>
      match Type_of_value s with
      | Some t => Ok (Some t)
      | None => Raise ValidationError
      end
  | _ => Raise ValidationError
  end.

Definition validate_opt_list (v : value) : result (option (list value)) :=
  match v with
  | VNone => Ok None
  | VList l => Ok (Some l)
  | _ => Raise ValidationError
  end.

Definition validate_opt_int (v : value) : result (option Z) :=
  match v with
  | VNone => Ok None
  | VInt z => Ok (Some z)
  | VBool b => Ok (Some (if b then 1 else 0)%Z)
  | VStr s =>
      match int_of_str s with
      | Some z => Ok (Some z)
      | None => Raise ValidationError
      end
  | VList _ | VDict _ => Raise ValidationError
  end.

Definition validate_opt_number (v : value) : result (option Z) :=
  match v with
  | VStr s =>
      match int_of_str s with
      | Some z => Ok (Some z)
      | None => OutOfFuel
      end
  | _ => validate_opt_int v
  end.

Section Codec.

(** [repr(x)] and [ast.literal_eval(s)] for a string [s]: the value it
    returns or the exception it raises ([SyntaxError] for text that does not
    parse, [ValueError] for text that is not a literal). *)
Variable repr : value -> string.
Variable literal_eval : string -> result value.

(** [ast.literal_eval(d)] for an arbitrary object [d]: anything but a
    string is a malformed node, a [ValueError]. *)
Definition literal_eval_value (d : value) : result value :=
  match d with
  | VStr s => literal_eval s
  | _ => Raise ValueError
  end.

Fixpoint to_dict (self : JSONSchema) : dict :=
  let schema : dict :=
    [ ("type", match type self with
               | Some t => VStr (Type_value t)
               | None => VNone
               end);
      ("description", of_opt_str (description self));
      ("default", VStr (repr (default self))) ] in
  let schema :=
    if type_is self ARRAY then
      let schema :=
        match items self with
        | Some i => dict_set "items" (VDict (to_dict i)) schema
        | None => schema
        end in
      let schema := dict_set "minItems" (of_opt_int (minItems self)) schema in
      dict_set "maxItems" (of_opt_int (maxItems self)) schema
    else if type_is self OBJECT then
      let schema :=
        match properties self with
        | Some ((_ :: _) as props) =>
            let schema :=
              dict_set "properties"
                (VDict (map (fun np => (fst np, VDict (to_dict (snd np))))
                            props))
                schema in
            dict_set "required"
              (VList (map (fun np => VStr (fst np))
                          (filter (fun np => required (snd np)) props)))
              schema
        | _ => schema
        end in
      match additional_properties self with
      | Some ap => dict_set "additionalProperties" (VDict (to_dict ap)) schema
      | None => schema
      end
    else
      match enum self with
      | Some ((_ :: _) as e) => dict_set "enum" (VList e) schema
      | _ =>
          let schema := dict_set "minumum" (of_opt_int (minimum self)) schema in
          dict_set "maximum" (of_opt_int (maximum self)) schema
      end in
  filter (fun kv => negb (is_None (snd kv))) schema.

(** The body of [parse_properties], over the decoder it calls back. *)
Definition parse_properties_with
    (from_dict : value -> result JSONSchema) (schema_node : dict)
  : result (list (string * JSONSchema)) :=
  properties <-
    match dict_get "properties" schema_node with
    | Some (VDict ps) => map_values from_dict ps
    | Some _ => Raise AttributeError
    | None => Ok []
    end ;;
  match dict_get "required" schema_node with
  | Some req =>
      mapM (fun kv =>
              b <- py_in (fst kv) req ;;
              Ok (fst kv, set_required b (snd kv)))
           properties
  | None => Ok properties
  end.

Fixpoint from_dict (fuel : nat) (schema : value) : result JSONSchema :=
  match fuel with
  | O => OutOfFuel
  | S fuel' =>
      definitions <- get_or schema "definitions" (VDict []) ;;
      schema <- _resolve_type_refs_in_schema fuel' schema definitions ;;
      description_ <- get schema "description" ;;
      type_ <- subscript schema "type" ;;
      d <- get schema "default" ;;
      default_ <- (if truthy d then literal_eval_value d else Ok VNone) ;;
      enum_ <- get schema "enum" ;;
      i <- get schema "items" ;;
      items_ <- (if truthy i
                 then n <- from_dict fuel' i ;; Ok (Some n)
                 else Ok None) ;;
      properties_ <-
        (if value_eqb type_ (VStr "object")
         then match schema with
              | VDict node =>
                  ps <- parse_properties_with (from_dict fuel') node ;;
                  Ok (Some ps)
              | _ => Raise AttributeError
              end
         else Ok None) ;;
      additional_properties_ <-
        (if value_eqb type_ (VStr "object")
         then ap <- get schema "additionalProperties" ;;
              if truthy ap
              then n <- from_dict fuel' ap ;; Ok (Some n)
              else Ok None
         else Ok None) ;;
      minimum_ <- get schema "minimum" ;;
      maximum_ <- get schema "maximum" ;;
      minItems_ <- get schema "minItems" ;;
      maxItems_ <- get schema "maxItems" ;;
      (* JSONSchema(...): the fields are validated against their types *)
      description_ <- validate_opt_str description_ ;;
      type_ <- validate_opt_Type type_ ;;
      enum_ <- validate_opt_list enum_ ;;
      minimum_ <- validate_opt_number minimum_ ;;
      maximum_ <- validate_opt_number maximum_ ;;
      minItems_ <- validate_opt_int minItems_ ;;
      maxItems_ <- validate_opt_int maxItems_ ;;
      Ok (mkJSONSchema description_ type_ enum_ false default_ items_
            properties_ additional_properties_ minimum_ maximum_
            minItems_ maxItems_)
  end.

Definition parse_properties (fuel : nat) (schema_node : dict)
  : result (list (string * JSONSchema)) :=
  parse_properties_with (from_dict fuel) schema_node.

End Codec.

(** ** Type projections *)

(** The Python types that are keys of [_PYTHON_TO_JSON_TYPE]. *)
Inductive PyPrim : Set := py_int | py_str | py_bool | py_float.

Definition PyPrim_eqb (a b : PyPrim) : bool :=
  match a, b with
  | py_int, py_int | py_str, py_str | py_bool, py_bool
  | py_float, py_float => true
  | _, _ => false
  end.

(** [p.__name__] *)
Definition PyPrim_name (p : PyPrim) : string :=
  match p with
  | py_int => "int"
  | py_str => "str"
  | py_bool => "bool"
  | py_float => "float"
  end.

Definition _PYTHON_TO_JSON_TYPE : list (PyPrim * Type_) :=
  [ (py_int, INTEGER); (py_str, STRING); (py_bool, BOOLEAN);
    (py_float, NUMBER) ].

Definition _JSON_TO_PYTHON_TYPE : list (Type_ * PyPrim) :=
  map (fun pj => (snd pj, fst pj)) _PYTHON_TO_JSON_TYPE.

(** Lookup in a table keyed by an enumeration. *)
Fixpoint table_get {K V : Type} (eqb : K -> K -> bool) (k : K)
    (t : list (K * V)) : option V :=
  match t with
  | [] => None
  | (k', v) :: t' => if eqb k k' then Some v else table_get eqb k t'
  end.

Definition newline : string := String (ascii_of_nat 10) EmptyString.

(** [sep.join(parts)] *)
Definition join (sep : string) (parts : list string) : string :=
  String.concat sep parts.

Section Projections.

Variable repr : value -> string.
(** [textwrap.indent(text, prefix)] *)
Variable indent : string -> string -> string.

Fixpoint python_type (self : JSONSchema) : result string :=
  match match type self with
        | Some t => table_get Type_eqb t _JSON_TO_PYTHON_TYPE
        | None => None
        end with
  | Some p => Ok (PyPrim_name p)
  | None =>
      if type_is self ARRAY then
        match items self with
        | Some i => t <- python_type i ;; Ok ("list[" ++ t ++ "]")
        | None => Ok "list"
        end
      else if type_is self OBJECT then
        match properties self with
        | Some (_ :: _) => Raise NotImplementedError
        | _ => Ok "dict"
        end
      else
        match enum self with
        | Some ((_ :: _) as e) =>
            Ok ("Union[" ++ join ", " (map repr e) ++ "]")
        | _ =>
            if type_is self TYPE then Ok "type"
            else match type self with
                 | None => Ok "Any"
                 | Some _ => Raise NotImplementedError
                 end
        end
  end.

(** The body of [to_typescript_object_interface], over the projection it
    calls on each property. *)
Definition to_typescript_object_interface_with
    (typescript_type : JSONSchema -> result string)
    (self : JSONSchema) (interface_name : string) : result string :=
  if negb (type_is self OBJECT) then Raise NotImplementedError
  else
    attributes_string <-
      match properties self with
      | Some ((_ :: _) as props) =>
          attributes <-
            mapM (fun np =>
                    t <- typescript_type (snd np) ;;
                    Ok (List.app
                          match description (snd np) with
                          | Some (String _ _ as d) => ["// " ++ d]
                          | _ => []
                          end
                          [fst np ++ ": " ++ t ++ ";"]))
                 props ;;
          Ok (join newline (List.concat attributes))
      | _ => Ok "[key: string]: any"
      end ;;
    Ok (match interface_name with
        | EmptyString => ""
        | _ => "interface " ++ interface_name ++ " "
        end
        ++ "{" ++ newline ++ indent attributes_string "  " ++ newline ++ "}").

Fixpoint typescript_type (self : JSONSchema) : result string :=
  match type self with
  | None => Ok "any"
  | Some t =>
      if Type_eqb t BOOLEAN then Ok "boolean"
      else if Type_eqb t INTEGER || Type_eqb t NUMBER then Ok "number"
      else if Type_eqb t STRING then Ok "string"
      else if Type_eqb t ARRAY then
        match items self with
        | Some i => s <- typescript_type i ;; Ok ("Array<" ++ s ++ ">")
        | None => Ok "Array"
        end
      else if Type_eqb t OBJECT then
        match properties self with
        | Some (_ :: _) =>
            to_typescript_object_interface_with typescript_type self ""
        | _ => Ok "Record<string, any>"
        end
      else
        match enum self with
        | Some ((_ :: _) as e) => Ok (join " | " (map repr e))
        | _ =>
            if Type_eqb t TYPE then Ok "type"
            else Raise NotImplementedError
        end
  end.

Definition to_typescript_object_interface
    (self : JSONSchema) (interface_name : string) : result string :=
  to_typescript_object_interface_with typescript_type self interface_name.

End Projections.

(** ** Inference from a Python type *)

(** What [typing.get_origin] reports for a subscripted or [typing] alias. *)
Inductive Origin : Set := O_Union | O_list | O_dict | O_other.

(** The type objects [from_python_type] distinguishes.  A class is one of
    the primitives, [NoneType], [list], [dict], a [BaseModel] subclass
    (carried with the document its [schema()] returns), a [TypedDict] class
    (with its [__annotations__]) or some other class; everything else
    ([typing.Union[...]], [typing.Optional[...]], [list[...]],
    [typing.List], [dict[...]], ...) is an alias with an origin and
    arguments, and is not a class. *)
Inductive PyType : Type :=
| T_prim (p : PyPrim)
| T_NoneType
| T_list
| T_dict
| T_BaseModel (schema : value)
| T_TypedDict (annotations : list (string * PyType))
| T_class
| T_alias (origin : Origin) (args : list PyType).

(** [typing.get_origin(T)], [None] for a class. *)
Definition get_origin (T : PyType) : option Origin :=
  match T with
  | T_alias o _ => Some o
  | _ => None
  end.

(** [typing.get_args(T)], [()] for a class. *)
Definition get_args (T : PyType) : list PyType :=
  match T with
  | T_alias _ args => args
  | _ => []
  end.

Definition is_NoneType (T : PyType) : bool :=
  match T with T_NoneType => true | _ => false end.

(** [issubclass(T, BaseModel)]: a [TypeError] unless [T] is a class. *)
Definition issubclass_BaseModel (T : PyType) : result bool :=
  match T with
  | T_alias _ _ => Raise TypeError
  | T_BaseModel _ => Ok true
  | _ => Ok false
  end.

Definition origin_is (T : PyType) (o : Origin) : bool :=
  match get_origin T, o with
  | Some O_Union, O_Union | Some O_list, O_list | Some O_dict, O_dict => true
  | _, _ => false
  end.

Section Inference.

Variable literal_eval : string -> result value.

Fixpoint from_python_type (fuel : nat) (T : PyType) {struct T}
  : result JSONSchema :=
  let cls type_ required_ items_ properties_ additional_properties_ :=
    mkJSONSchema None type_ None required_ VNone items_ properties_
      additional_properties_ None None None None in
  let finish partial_schema := Ok (set_required true partial_schema) in
  match match T with
        | T_prim p => table_get PyPrim_eqb p _PYTHON_TO_JSON_TYPE
        | _ => None
        end with
  | Some _t => finish (cls (Some _t) true None None None)
  | None =>
      (* [get_origin(T) is Union and get_args(T)[-1] is NoneType] *)
      is_optional <-
        (if origin_is T O_Union
         then match rev (get_args T) with
              | last :: _ => Ok (is_NoneType last)
              | [] => Raise IndexError
              end
         else Ok false) ;;
      if is_optional then
        if (1 <? List.length (removelast (get_args T)))%nat
        then Raise NotImplementedError
        else
          (* [get_args(T)[0]] *)
          match T with
          | T_alias _ (T0 :: _) =>
              partial_schema <- from_python_type fuel T0 ;;
              Ok (set_required false partial_schema)
          | _ => Raise IndexError
          end
      else
        is_model <- issubclass_BaseModel T ;;
        if is_model then
          match T with
          | T_BaseModel schema =>
              partial_schema <- from_dict literal_eval fuel schema ;;
              finish partial_schema
          | _ => Raise TypeError
          end
        else if match T with T_list => true | _ => origin_is T O_list end
        then
          (* [get_args(T)[0]]; a type object is always true *)
          match T with
          | T_alias _ (T_v :: _) =>
              items_ <- from_python_type fuel T_v ;;
              finish (cls (Some ARRAY) false (Some items_) None None)
          | _ => Raise IndexError
          end
        else if match T with T_dict => true | _ => origin_is T O_dict end
        then
          (* [get_args(T)[1]] *)
          match T with
          | T_alias _ (_ :: T_v :: _) =>
              ap <- from_python_type fuel T_v ;;
              finish (cls (Some OBJECT) false None None (Some ap))
          | _ => Raise IndexError
          end
        else
          match T with
          | T_TypedDict annotations =>
              properties_ <-
                map_values (from_python_type fuel) annotations ;;
              finish (cls (Some OBJECT) false None (Some properties_) None)
          | _ => Raise TypeError
          end
  end.

End Inference.

(** ** An instance of the library functions, to run examples

    [repr_lit] is Python's [repr] on the values of this model whose strings
    are made of printable characters other than quotes and backslashes (no
    escaping is done).  [literal_eval_lit] reads back [None], [True],
    [False], decimal integers in the form [repr] prints them and plain
    single-quoted strings; it raises [SyntaxError] for a text of spaces only
    and for two or more names separated by single spaces, which do not
    parse, and [ValueError] for a single name, which is not a literal (the
    names being small letters, reserved words apart); for every other
    string, whether Python reads it or raises, it gives no answer.
    [indent_lit] is [textwrap.indent] for text whose only line separator is
    the newline character. *)

Fixpoint repr_lit (v : value) : string :=
  match v with
  | VNone => "None"
  | VBool true => "True"
  | VBool false => "False"
  | VInt z => repr_int z
  | VStr s => "'" ++ s ++ "'"
  | VList l => "[" ++ join ", " (map repr_lit l) ++ "]"
  | VDict d =>
      "{" ++ join ", " (map (fun kv => "'" ++ fst kv ++ "': " ++ repr_lit (snd kv)) d)
          ++ "}"
  end.

Definition plain_char (c : ascii) : bool :=
  let n := nat_of_ascii c in
  (32 <=? n)%nat && (n <? 127)%nat
  && negb (Ascii.eqb c "'") && negb (Ascii.eqb c (ascii_of_nat 34)) && negb (Ascii.eqb c "\").

Fixpoint plain (s : string) : bool :=
  match s with
  | EmptyString => true
  | String c s' => plain_char c && plain s'
  end.

(** [s] without its last character, when that is a single quote. *)
Fixpoint strip_closing_quote (s : string) : option string :=
  match s with
  | EmptyString => None
  | String c EmptyString => if Ascii.eqb c "'" then Some EmptyString else None
  | String c s' =>
      match strip_closing_quote s' with
      | Some body => Some (String c body)
      | None => None
      end
  end.

Fixpoint only_spaces (s : string) : bool :=
  match s with
  | EmptyString => true
  | String c s' => Ascii.eqb c " " && only_spaces s'
  end.

(** The reserved words in small letters, hard and soft. *)
Definition keywords : list string :=
  [ "and"; "as"; "assert"; "async"; "await"; "break"; "case"; "class";
    "continue"; "def"; "del"; "elif"; "else"; "except"; "finally"; "for";
    "from"; "global"; "if"; "import"; "in"; "is"; "lambda"; "match";
    "nonlocal"; "not"; "or"; "pass"; "raise"; "return"; "try"; "type";
    "while"; "with"; "yield" ].

Fixpoint small_letters (s : string) : bool :=
  match s with
  | EmptyString => true
  | String c s' =>
      (97 <=? nat_of_ascii c)%nat && (nat_of_ascii c <=? 122)%nat
      && small_letters s'
  end.

(** A name in small letters that is not a reserved word. *)
Definition plain_name (w : string) : bool :=
  negb (String.eqb w "") && small_letters w
  && negb (existsb (String.eqb w) keywords).

Definition literal_eval_lit (s : string) : result value :=
  if only_spaces s then Raise SyntaxError
  else if String.eqb s "None" then Ok VNone
  else if String.eqb s "True" then Ok (VBool true)
  else if String.eqb s "False" then Ok (VBool false)
  else
    match s with
    | String "'" rest =>
        match strip_closing_quote rest with
        | Some body => if plain body then Ok (VStr body) else OutOfFuel
        | None => OutOfFuel
        end
    | _ =>
        if forallb plain_name (split " " s)
        then match split " " s with
             | [_] => Raise ValueError
             | _ => Raise SyntaxError
             end
        else
          match DecimalString.NilZero.int_of_string s with
          | Some i =>
              if String.eqb (repr_int (Z.of_int i)) s
              then Ok (VInt (Z.of_int i)) else OutOfFuel
          | None => OutOfFuel
          end
    end.

Definition blank_char (c : ascii) : bool :=
  Ascii.eqb c " " || ((9 <=? nat_of_ascii c)%nat && (nat_of_ascii c <=? 13)%nat).

Fixpoint blank (s : string) : bool :=
  match s with
  | EmptyString => true
  | String c s' => blank_char c && blank s'
  end.

Definition indent_lit (text prefix : string) : string :=
  join newline
    (map (fun line => if blank line then line else prefix ++ line)
         (split (ascii_of_nat 10) text)).

(** * The resolver over a heap of objects

    Dicts and lists are mutable objects that Python passes by reference.  To
    say what a call does to its arguments, the resolver is embedded a second
    time over an explicit heap: a reference is a scalar or the address of a
    dict or list object, and the heap is the list of the objects allocated so
    far, an object's address being its index.  The code is the same, line by
    line; reading an object looks it up in the heap, and a comprehension
    allocates its result. *)

(** The resolver on documents, under names that the heap version does not
    reuse. *)
Module Doc.
Definition subscript := subscript.
Definition follow_path := follow_path.
Definition resolve := _resolve_type_refs_in_schema.
End Doc.

Module Heap.

Definition loc := nat.

Inductive ref : Type :=
| RNone
| RBool (b : bool)
| RInt (z : Z)
| RStr (s : string)
| RObj (l : loc).

Inductive object : Type :=
| ODict (entries : list (string * ref))
| OList (elements : list ref).

Definition heap := list object.

Definition lookup (h : heap) (l : loc) : option object := nth_error h l.

(** A new object gets the next address; no object is ever moved, changed or
    freed by allocation. *)
Definition alloc (o : object) (h : heap) : ref * heap :=
  (RObj (List.length h), (h ++ [o])%list).

(** Sequencing of calls that read and extend the heap. *)
Definition mapM_heap {A B : Type} (f : A -> heap -> result (B * heap))
  : list A -> heap -> result (list B * heap) :=
  fix go (l : list A) (h : heap) : result (list B * heap) :=
    match l with
    | [] => Ok ([], h)
    | x :: xs =>
        yh <- f x h ;;
        ysh <- go xs (snd yh) ;;
        Ok (fst yh :: fst ysh, snd ysh)
    end.

(** [ref_value[key]] *)
Definition subscript (h : heap) (ref_value : ref) (key : string) : result ref :=
  match ref_value with
  | RObj l =>
      match lookup h l with
      | Some (ODict entries) =>
          match dict_get key entries with
          | Some v => Ok v
          | None => Raise KeyError
          end
      | Some (OList _) => Raise TypeError
      | None => OutOfFuel
      end
  | _ => Raise TypeError
  end.

Fixpoint follow_path (h : heap) (ref_path : list string) (ref_value : ref)
  : result ref :=
  match ref_path with
  | [] => Ok ref_value
  | key :: rest => v <- subscript h ref_value key ;; follow_path h rest v
  end.

Definition ref_path_of (r : ref) : result (list string) :=
  match r with
  | RStr s => Ok (skipn 2 (split "/" s))
  | _ => Raise AttributeError
  end.

(** An address outside the heap does not exist in Python; the model gives
    no result for it. *)
Fixpoint _resolve_type_refs_in_schema (fuel : nat) (schema definitions : ref)
    (h : heap) : result (ref * heap) :=
  match fuel with
  | O => OutOfFuel
  | S fuel' =>
      match schema with
      | RObj l =>
          match lookup h l with
          | Some (ODict entries) =>
              match dict_get "$ref" entries with
              | Some r =>
                  ref_path <- ref_path_of r ;;
                  ref_value <- follow_path h ref_path definitions ;;
                  _resolve_type_refs_in_schema fuel' ref_value definitions h
              | None =>
                  eh <- mapM_heap (fun kv h =>
                                vh <- _resolve_type_refs_in_schema fuel'
                                        (snd kv) definitions h ;;
                                Ok ((fst kv, fst vh), snd vh))
                             entries h ;;
                  Ok (alloc (ODict (fst eh)) (snd eh))
              end
          | Some (OList elements) =>
              eh <- mapM_heap (fun item h =>
                            _resolve_type_refs_in_schema fuel' item
                              definitions h)
                         elements h ;;
              Ok (alloc (OList (fst eh)) (snd eh))
          | None => OutOfFuel
          end
      | _ => Ok (schema, h)
      end
  end.

(** The references an object holds. *)
Definition children (o : object) : list ref :=
  match o with
  | ODict entries => map snd entries
  | OList elements => elements
  end.

(** Every dict and list that can be reached from [r] in [h] was allocated
    at an address not below [n]. *)
Inductive fresh (n : nat) (h : heap) : ref -> Prop :=
| fresh_scalar r :
    match r with RObj _ => False | _ => True end -> fresh n h r
| fresh_object l o :
    n <= l ->
    lookup h l = Some o ->
    Forall (fresh n h) (children o) ->
    fresh n h (RObj l).

(** The document that a reference stands for in a heap. *)
Inductive represents (h : heap) : ref -> value -> Prop :=
| represents_None : represents h RNone VNone
| represents_Bool b : represents h (RBool b) (VBool b)
| represents_Int z : represents h (RInt z) (VInt z)
| represents_Str s : represents h (RStr s) (VStr s)
| represents_List l elements vs :
    lookup h l = Some (OList elements) ->
    Forall2 (represents h) elements vs ->
    represents h (RObj l) (VList vs)
| represents_Dict l entries d :
    lookup h l = Some (ODict entries) ->
    Forall2 (fun e kv => fst e = fst kv /\ represents h (snd e) (snd kv))
            entries d ->
    represents h (RObj l) (VDict d).

(** [h'] is [h] with objects added: every address of [h] holds in [h']
    the object it held in [h]. *)
Definition extends (h h' : heap) : Prop :=
  exists added, h' = (h ++ added)%list.

(** A heap with a definitions table at address 0 and a document at
    address 3 that refers to it. *)
Definition example_heap : heap :=
  [ ODict [("Foo", RObj 1)];
    ODict [("type", RStr "string")];
    ODict [("$ref", RStr "#/definitions/Foo"); ("title", RStr "dropped")];
    OList [RObj 2; RInt 1] ].

End Heap.

(** * Specification predicates *)

(** ** The resolver *)

Definition scalar (v : value) : Prop :=
  match v with
  | VList _ | VDict _ => False
  | _ => True
  end.

(** The traversal as the specification words it: a mapping is copied key by
    key with each value resolved, unless it holds the key [$ref], in which
    case it is replaced by the resolved fragment its pointer leads to;
    sequences are resolved element-wise; scalars are unchanged. *)
Inductive resolves (definitions : value) : value -> value -> Prop :=
| resolves_scalar v :
    scalar v -> resolves definitions v v
| resolves_sequence l l' :
    Forall2 (resolves definitions) l l' ->
    resolves definitions (VList l) (VList l')
| resolves_mapping d d' :
    dict_get "$ref" d = None ->
    Forall2 (fun kv kv' =>
               fst kv' = fst kv /\ resolves definitions (snd kv) (snd kv'))
            d d' ->
    resolves definitions (VDict d) (VDict d')
| resolves_ref d pointer fragment r :
    dict_get "$ref" d = Some (VStr pointer) ->
    follow_path (skipn 2 (split "/" pointer)) definitions = Ok fragment ->
    resolves definitions fragment r ->
    resolves definitions (VDict d) r.

(** The path cannot be followed from a value: a key is missing from a
    mapping on the way ([KeyError]), or the way runs into something that is
    not a mapping ([TypeError]). *)
Inductive path_fails : list string -> value -> exn -> Prop :=
| path_missing key rest d :
    dict_get key d = None -> path_fails (key :: rest) (VDict d) KeyError
| path_not_mapping key rest v :
    match v with VDict _ => False | _ => True end ->
    path_fails (key :: rest) v TypeError
| path_step key rest d v e :
    dict_get key d = Some v ->
    path_fails rest v e ->
    path_fails (key :: rest) (VDict d) e.

(** The path leads from a value to the value found at its end, through
    mappings only. *)
Inductive path_leads : list string -> value -> value -> Prop :=
| path_end v : path_leads [] v v
| path_next key rest d v w :
    dict_get key d = Some v ->
    path_leads rest v w ->
    path_leads (key :: rest) (VDict d) w.

(** The mapping holds a [$ref] pointer whose path, the segments after the
    second [/], cannot be followed through the definitions table. *)
Definition dangling (definitions : value) (d : dict) (e : exn) : Prop :=
  exists pointer,
    dict_get "$ref" d = Some (VStr pointer)
    /\ path_fails (skipn 2 (split "/" pointer)) definitions e.

(** The document holds a dangling pointer somewhere, visited or not. *)
Inductive contains_dangling (definitions : value) : value -> Prop :=
| contains_here d e :
    dangling definitions d e -> contains_dangling definitions (VDict d)
| contains_value d k v :
    In (k, v) d ->
    contains_dangling definitions v ->
    contains_dangling definitions (VDict d)
| contains_element l v :
    In v l ->
    contains_dangling definitions v ->
    contains_dangling definitions (VList l).

(** The document holds a dangling pointer at a place the traversal comes
    to: in the document itself, in a value of a mapping without [$ref], in
    an element of a sequence, or in a fragment that a pointer leads to. *)
Inductive reaches_dangling (definitions : value) : value -> Prop :=
| reaches_here d e :
    dangling definitions d e -> reaches_dangling definitions (VDict d)
| reaches_fragment d pointer fragment :
    dict_get "$ref" d = Some (VStr pointer) ->
    path_leads (skipn 2 (split "/" pointer)) definitions fragment ->
    reaches_dangling definitions fragment ->
    reaches_dangling definitions (VDict d)
| reaches_value d k v :
    dict_get "$ref" d = None ->
    In (k, v) d ->
    reaches_dangling definitions v ->
    reaches_dangling definitions (VDict d)
| reaches_element l v :
    In v l ->
    reaches_dangling definitions v ->
    reaches_dangling definitions (VList l).

(** The traversal comes to a dangling pointer, whose lookup fails with [e],
    and everything it visits before (the earlier values of a mapping, the
    earlier elements of a sequence) resolves. *)
Inductive surfaces (definitions : value) : value -> exn -> Prop :=
| surfaces_here d e :
    dangling definitions d e -> surfaces definitions (VDict d) e
| surfaces_fragment d pointer fragment e :
    dict_get "$ref" d = Some (VStr pointer) ->
    path_leads (skipn 2 (split "/" pointer)) definitions fragment ->
    surfaces definitions fragment e ->
    surfaces definitions (VDict d) e
| surfaces_value d before k v after e :
    dict_get "$ref" d = None ->
    d = (before ++ (k, v) :: after)%list ->
    Forall (fun kv => exists r, resolves definitions (snd kv) r) before ->
    surfaces definitions v e ->
    surfaces definitions (VDict d) e
| surfaces_element l before v after e :
    l = (before ++ v :: after)%list ->
    Forall (fun x => exists r, resolves definitions x r) before ->
    surfaces definitions v e ->
    surfaces definitions (VList l) e.

(** ** Decoding *)

(** The document that [from_dict] interprets: the argument with its [$ref]s
    resolved against its own [definitions] section. *)
Definition resolved_document (schema : value) (node : dict) : Prop :=
  exists definitions fuel,
    get_or schema "definitions" (VDict []) = Ok definitions
    /\ _resolve_type_refs_in_schema fuel schema definitions = Ok (VDict node).


(** ** Documents without references *)

Fixpoint height (v : value) : nat :=
  match v with
  | VList l => S (list_max (map height l))
  | VDict d => S (list_max (map (fun kv => height (snd kv)) d))
  | _ => 0
  end.

Inductive ref_free : value -> Prop :=
| ref_free_scalar v : scalar v -> ref_free v
| ref_free_sequence l : Forall ref_free l -> ref_free (VList l)
| ref_free_mapping d :
    dict_get "$ref" d = None ->
    Forall (fun kv => ref_free (snd kv)) d ->
    ref_free (VDict d).

(** ** Documents that say their kind only *)



(** ** Equivalence of nodes across the codec *)

Inductive option_rel {A : Type} (R : A -> A -> Prop)
  : option A -> option A -> Prop :=
| option_rel_None : option_rel R None None
| option_rel_Some x y : R x y -> option_rel R (Some x) (Some y).

(** The properties of a node, none when the mapping is absent. *)
Definition properties_of (n : JSONSchema) : list (string * JSONSchema) :=
  match properties n with
  | Some ps => ps
  | None => []
  end.

(** Two nodes are equivalent when they have the same description, kind,
    enum, default, upper bound and item bounds, equivalent items and
    additional properties, and the same property names in the same order,
    with the same [required] flags and equivalent nodes.  The [required]
    flag of the node itself and of its items, which only means something on a
    property, is not compared; an absent and an empty [properties] are the
    same; [minimum] is not compared. *)
Inductive equivalent : JSONSchema -> JSONSchema -> Prop :=
| equivalent_nodes n n' :
    description n = description n' ->
    type n = type n' ->
    enum n = enum n' ->
    default n = default n' ->
    maximum n = maximum n' ->
    minItems n = minItems n' ->
    maxItems n = maxItems n' ->
    option_rel equivalent (items n) (items n') ->
    option_rel equivalent (additional_properties n) (additional_properties n') ->
    Forall2 (fun np np' =>
               fst np = fst np'
               /\ required (snd np) = required (snd np')
               /\ equivalent (snd np) (snd np'))
            (properties_of n) (properties_of n') ->
    equivalent n n'.

(** ** The nodes the codec is meant for *)

Section WellFormed.

Variable repr : value -> string.
Variable literal_eval : string -> result value.

(** The default is a literal: [repr] prints it as a non-empty text that
    [ast.literal_eval] reads back. *)
Definition literal_ok (v : value) : Prop :=
  repr v <> "" /\ literal_eval (repr v) = Ok v.

(** The nodes of the data model that the codec is meant for: every node has
    a kind, [items] and the item bounds occur on arrays only, [properties]
    on objects only, an upper bound on neither; property names are unique and
    none is [$ref]; there is no [enum] and no [additional_properties]; every
    default is a literal. *)
Fixpoint well_formed (n : JSONSchema) : Prop :=
  literal_ok (default n)
  /\ enum n = None
  /\ additional_properties n = None
  /\ match type n with
     | None => False
     | Some ARRAY =>
         properties n = None /\ maximum n = None
         /\ match items n with
            | Some i => well_formed i
            | None => True
            end
     | Some OBJECT =>
         items n = None /\ maximum n = None
         /\ minItems n = None /\ maxItems n = None
         /\ match properties n with
            | Some ps =>
                NoDup (map fst ps) /\ ~ In "$ref" (map fst ps)
                /\ (fix all (ps : list (string * JSONSchema)) : Prop :=
                      match ps with
                      | [] => True
                      | np :: ps' => well_formed (snd np) /\ all ps'
                      end) ps
            | None => True
            end
     | Some _ =>
         items n = None /\ properties n = None
         /\ minItems n = None /\ maxItems n = None
     end.

End WellFormed.

(** What decoding the encoding of a well-formed node returns. *)
Fixpoint decoded (n : JSONSchema) : JSONSchema :=
  mkJSONSchema (description n) (type n) None false (default n)
    match items n with
    | Some i => Some (decoded i)
    | None => None
    end
    (if type_is n OBJECT
     then match properties n with
          | Some ps =>
              Some (map (fun np =>
                           (fst np, set_required (required (snd np))
                                                 (decoded (snd np))))
                        ps)
          | None => Some []
          end
     else None)
    None None (maximum n) (minItems n) (maxItems n).

(** ** Example nodes and documents *)

Definition dangling_definitions : value :=
  VDict [("Bar", VDict [("type", VStr "string")])].

Definition dangling_example : value :=
  VDict [ ("title", VStr "t");
          ("items", VList [VDict [("$ref", VStr "#/definitions/Foo")]]) ].

Definition dangling_sibling_example : value :=
  VDict [ ("$ref", VStr "#/definitions/Bar");
          ("x", VDict [("$ref", VStr "#/definitions/Foo")]) ].

Definition person_node : JSONSchema :=
  mkJSONSchema None (Some OBJECT) None false VNone None
    (Some [ ("name",
             mkJSONSchema None (Some STRING) None true VNone None None None
                          None None None None);
            ("age",
             mkJSONSchema (Some "in years") (Some INTEGER) None false VNone
                          None None None None None None None) ])
    None None None None None.

Definition open_object_node : JSONSchema :=
  mkJSONSchema None (Some OBJECT) None false VNone None None None
               None None None None.

Definition required_example : dict :=
  [ ("type", VStr "object");
    ("properties", VDict [ ("a", VDict [("type", VStr "string")]);
                           ("b", VDict [("type", VStr "integer")]) ]);
    ("required", VList [VStr "a"]) ].

Definition optional_example : dict :=
  [ ("type", VStr "object");
    ("properties", VDict [ ("a", VDict [("type", VStr "string")]) ]) ].

Definition string_prop (req : bool) : JSONSchema :=
  mkJSONSchema None (Some STRING) None req VNone None None None
               None None None None.

Definition integer_prop (req : bool) : JSONSchema :=
  mkJSONSchema None (Some INTEGER) None req VNone None None None
               None None None None.

Definition required_example_node : JSONSchema :=
  mkJSONSchema None (Some OBJECT) None false VNone None
    (Some [("a", string_prop true); ("b", integer_prop false)])
    None None None None None.

Definition optional_example_node : JSONSchema :=
  mkJSONSchema None (Some OBJECT) None false VNone None
    (Some [("a", string_prop false)])
    None None None None None.

Definition untyped_items_example : value :=
  VDict [ ("type", VStr "array");
          ("items", VDict [("description", VStr "no type here")]) ].

Definition roundtrip_node : JSONSchema :=
  mkJSONSchema (Some "a person") (Some OBJECT) None true VNone None
    (Some [ ("name",
             mkJSONSchema (Some "full name") (Some STRING) None true
                          (VStr "x") None None None None None None None);
            ("age",
             mkJSONSchema None (Some INTEGER) None false VNone None None None
                          (Some 0%Z) (Some 150%Z) None None);
            ("tags",
             mkJSONSchema None (Some ARRAY) None false VNone
                          (Some (mkJSONSchema None (Some STRING) None true
                                   VNone None None None None None None None))
                          None None None None (Some 1%Z) None) ])
    None None None None None.

(** ** Predicates for the further properties *)

(** The keys that [to_dict] can write for a node, by the branch it takes. *)
Definition fields_of_kind (n : JSONSchema) : list string :=
  if type_is n ARRAY
  then ["type"; "description"; "default"; "items"; "minItems"; "maxItems"]
  else if type_is n OBJECT
  then ["type"; "description"; "default"; "properties"; "required";
        "additionalProperties"]
  else match enum n with
       | Some (_ :: _) => ["type"; "description"; "default"; "enum"]
       | _ => ["type"; "description"; "default"; "minumum"; "maximum"]
       end.

(** Following [items] through arrays leads to an object with declared
    properties. *)
Fixpoint typed_object_in_items (n : JSONSchema) : bool :=
  if type_is n OBJECT
  then match properties n with
       | Some (_ :: _) => true
       | _ => false
       end
  else if type_is n ARRAY
  then match items n with
       | Some i => typed_object_in_items i
       | None => false
       end
  else false.

(** A segment of a pointer: a text without [/]. *)
Fixpoint slash_free (s : string) : bool :=
  match s with
  | EmptyString => true
  | String c s' => negb (Ascii.eqb c "/") && slash_free s'
  end.

(** [typing.Optional[...]] and the other [typing.Union] aliases. *)
Definition is_Union (T : PyType) : bool := origin_is T O_Union.

(** Examples for the further properties. *)
Definition bounded_integer_node : JSONSchema :=
  mkJSONSchema None (Some INTEGER) None false VNone None None None
               (Some 0%Z) (Some 9%Z) None None.

Definition point_TypedDict : PyType :=
  T_TypedDict [ ("x", T_prim py_float);
                ("label", T_alias O_Union [T_prim py_str; T_NoneType]) ].

Definition point_node : JSONSchema :=
  mkJSONSchema None (Some OBJECT) None true VNone None
    (Some [ ("x",
             mkJSONSchema None (Some NUMBER) None true VNone None None None
                          None None None None);
            ("label",
             mkJSONSchema None (Some STRING) None false VNone None None None
                          None None None None) ])
    None None None None None.

(** * Properties *)

(** ** The error monad and [mapM] *)

Lemma bind_ok {A B : Type} (m : result A) (k : A -> result B) (b : B) :
  bind m k = Ok b -> exists a, m = Ok a /\ k a = Ok b.
Proof.
  destruct m as [a| |]; simpl; intros H; try discriminate.
  exists a; split; [reflexivity | assumption].
Qed.

Lemma bind_settled {A B : Type} (m : result A) (k : A -> result B) :
  bind m k <> OutOfFuel -> m <> OutOfFuel.
Proof. destruct m; simpl; congruence. Qed.

Ltac inv_bind H :=
  let a := fresh "a" in
  let Ha := fresh "Ha" in
  apply bind_ok in H; destruct H as (a & Ha & H).

Lemma mapM_ok_Forall2 {A B : Type} (f : A -> result B) (l : list A)
    (l' : list B) :
  mapM f l = Ok l' <-> Forall2 (fun x y => f x = Ok y) l l'.
Proof.
  revert l'; induction l as [|x xs IH]; intros l'; simpl.
  - split; intros H.
    + injection H as <-; constructor.
    + inversion H; reflexivity.
  - split; intros H.
    + inv_bind H. inv_bind H. injection H as <-.
      constructor; [assumption | apply IH; assumption].
    + inversion H as [|? y ? ys Hx Hxs]; subst.
      rewrite Hx; simpl. apply IH in Hxs. rewrite Hxs. reflexivity.
Qed.

Lemma mapM_ok_length {A B : Type} (f : A -> result B) l l' :
  mapM f l = Ok l' -> List.length l' = List.length l.
Proof.
  intros H. apply mapM_ok_Forall2 in H.
  symmetry. eapply Forall2_length; eassumption.
Qed.

(** A later element is only evaluated when the earlier ones returned, so two
    element functions that agree wherever the first one gives an answer give
    the same answer on the list. *)
Lemma mapM_ext_settled {A B : Type} (f g : A -> result B) (l : list A) :
  (forall x, In x l -> f x <> OutOfFuel -> g x = f x) ->
  mapM f l <> OutOfFuel -> mapM g l = mapM f l.
Proof.
  induction l as [|x xs IH]; intros Hext Hs; simpl in *; [reflexivity|].
  assert (Hx : f x <> OutOfFuel) by (eapply bind_settled; eassumption).
  rewrite (Hext x (or_introl eq_refl) Hx).
  destruct (f x) as [y| |]; simpl in *; try reflexivity.
  assert (Hxs : mapM f xs <> OutOfFuel) by (eapply bind_settled; eassumption).
  rewrite IH; auto.
Qed.

Lemma mapM_raise_In {A B : Type} (f : A -> result B) (l : list A) (x : A) :
  In x l -> (forall y, f x <> Ok y) -> forall l', mapM f l <> Ok l'.
Proof.
  intros Hin Hx l' H. apply mapM_ok_Forall2 in H.
  revert l' H; induction l as [|a l IH]; intros l' H; [contradiction|].
  inversion H as [|? y ? ys Ha Hl]; subst.
  destruct Hin as [->|Hin]; [eapply Hx; eassumption | eapply IH; eassumption].
Qed.

(** ** Induction on documents *)

Section value_induction.

Variable P : value -> Prop.
Hypothesis HNone : P VNone.
Hypothesis HBool : forall b, P (VBool b).
Hypothesis HInt : forall z, P (VInt z).
Hypothesis HStr : forall s, P (VStr s).
Hypothesis HList : forall l, Forall P l -> P (VList l).
Hypothesis HDict : forall d, Forall (fun kv => P (snd kv)) d -> P (VDict d).

Fixpoint value_ind' (v : value) : P v :=
  match v with
  | VNone => HNone
  | VBool b => HBool b
  | VInt z => HInt z
  | VStr s => HStr s
  | VList l =>
      HList ((fix go (l : list value) : Forall P l :=
                match l with
                | [] => Forall_nil _
                | x :: xs => Forall_cons _ (value_ind' x) (go xs)
                end) l)
  | VDict d =>
      HDict ((fix go (d : list (string * value))
               : Forall (fun kv => P (snd kv)) d :=
                match d with
                | [] => Forall_nil _
                | kv :: d' => Forall_cons _ (value_ind' (snd kv)) (go d')
                end) d)
  end.

End value_induction.

(** ** The resolver: fuel *)

Lemma resolve_fuel_S (fuel : nat) :
  forall schema definitions,
    _resolve_type_refs_in_schema fuel schema definitions <> OutOfFuel ->
    _resolve_type_refs_in_schema (S fuel) schema definitions
    = _resolve_type_refs_in_schema fuel schema definitions.
Proof.
  induction fuel as [|fuel IH]; intros schema defs Hs.
  - simpl in Hs. congruence.
  - remember (S fuel) as n eqn:En.
    rewrite En in Hs at 1. simpl in Hs. rewrite En at 2. simpl.
    destruct schema as [| | | |l|d]; try reflexivity.
    + rewrite (mapM_ext_settled
                 (fun item => _resolve_type_refs_in_schema fuel item defs)
                 (fun item => _resolve_type_refs_in_schema n item defs)).
      * reflexivity.
      * intros x _ Hx. subst n. apply IH; assumption.
      * eapply bind_settled; eassumption.
    + destruct (dict_get "$ref" d) as [ref|].
      * destruct (ref_path_of ref) as [p| |]; simpl in *; try reflexivity.
        destruct (follow_path p defs) as [rv| |]; simpl in *; try reflexivity.
        subst n. apply IH; assumption.
      * unfold map_values in *.
        rewrite (mapM_ext_settled
                   (fun kv => v <- _resolve_type_refs_in_schema fuel (snd kv) defs ;;
                              Ok (fst kv, v))
                   (fun kv => v <- _resolve_type_refs_in_schema n (snd kv) defs ;;
                              Ok (fst kv, v))).
        -- reflexivity.
        -- intros x _ Hx. subst n. rewrite IH; [reflexivity|].
           eapply bind_settled; eassumption.
        -- eapply bind_settled; eassumption.
Qed.

Lemma resolve_fuel_mono (fuel fuel' : nat) schema definitions :
  fuel <= fuel' ->
  _resolve_type_refs_in_schema fuel schema definitions <> OutOfFuel ->
  _resolve_type_refs_in_schema fuel' schema definitions
  = _resolve_type_refs_in_schema fuel schema definitions.
Proof.
  induction 1 as [|m Hle IH]; intros Hs; [reflexivity|].
  rewrite resolve_fuel_S; rewrite IH; auto.
Qed.

Lemma resolve_fuel_ok (fuel fuel' : nat) schema definitions r :
  fuel <= fuel' ->
  _resolve_type_refs_in_schema fuel schema definitions = Ok r ->
  _resolve_type_refs_in_schema fuel' schema definitions = Ok r.
Proof.
  intros Hle H. rewrite (resolve_fuel_mono _ _ Hle); [assumption|].
  rewrite H; discriminate.
Qed.

(** ** The resolver: what it computes *)

Section resolves_induction.

Variable definitions : value.
Variable P : value -> value -> Prop.
Hypothesis Hscalar : forall v, scalar v -> P v v.
Hypothesis Hsequence :
  forall l l', Forall2 P l l' -> P (VList l) (VList l').
Hypothesis Hmapping :
  forall d d',
    dict_get "$ref" d = None ->
    Forall2 (fun kv kv' => fst kv' = fst kv /\ P (snd kv) (snd kv')) d d' ->
    P (VDict d) (VDict d').
Hypothesis Href :
  forall d pointer fragment r,
    dict_get "$ref" d = Some (VStr pointer) ->
    follow_path (skipn 2 (split "/" pointer)) definitions = Ok fragment ->
    P fragment r -> P (VDict d) r.

Fixpoint resolves_ind' (v r : value) (H : resolves definitions v r)
  {struct H} : P v r :=
  match H in resolves _ v r return P v r with
  | @resolves_scalar _ v Hv => @Hscalar v Hv
  | @resolves_sequence _ _ _ H2 =>
      @Hsequence _ _
        ((fix go l l' (H2 : Forall2 (resolves definitions) l l')
            : Forall2 P l l' :=
            match H2 with
            | Forall2_nil _ => Forall2_nil _
            | @Forall2_cons _ _ _ x y _ _ Hxy Hrest =>
                Forall2_cons x y (@resolves_ind' _ _ Hxy) (go _ _ Hrest)
            end) _ _ H2)
  | @resolves_mapping _ _ _ Hd H2 =>
      @Hmapping _ _ Hd
        ((fix go d d'
            (H2 : Forall2 (fun kv kv' =>
                             fst kv' = fst kv
                             /\ resolves definitions (snd kv) (snd kv'))
                          d d')
            : Forall2 (fun kv kv' =>
                         fst kv' = fst kv /\ P (snd kv) (snd kv')) d d' :=
            match H2 with
            | Forall2_nil _ => Forall2_nil _
            | @Forall2_cons _ _ _ x y _ _ (conj Hk Hxy) Hrest =>
                Forall2_cons x y (conj Hk (@resolves_ind' _ _ Hxy))
                  (go _ _ Hrest)
            end) _ _ H2)
  | @resolves_ref _ d pointer _ _ Hd Hp Hr =>
      @Href _ _ _ _ Hd Hp (@resolves_ind' _ _ Hr)
  end.

End resolves_induction.

(** Elements that each resolve with some fuel all resolve with one fuel. *)
Lemma Forall2_common_fuel {A B : Type} (R : nat -> A -> B -> Prop) :
  (forall n m x y, n <= m -> R n x y -> R m x y) ->
  forall l l',
    Forall2 (fun x y => exists n, R n x y) l l' ->
    exists n, Forall2 (R n) l l'.
Proof.
  intros Hmono l l' H. induction H as [|x y l l' [n Hn] _ [m Hm]].
  - exists 0. constructor.
  - exists (Nat.max n m). constructor.
    + eapply Hmono; [apply Nat.le_max_l | exact Hn].
    + eapply Forall2_impl; [|exact Hm].
      intros a b Hab. eapply Hmono; [apply Nat.le_max_r | exact Hab].
Qed.

(** The equations of the resolver, one per shape of document. *)
Lemma resolve_ref_eq (fuel : nat) d definitions pointer :
  dict_get "$ref" d = Some (VStr pointer) ->
  _resolve_type_refs_in_schema (S fuel) (VDict d) definitions
  = bind (follow_path (skipn 2 (split "/" pointer)) definitions)
         (fun ref_value =>
            _resolve_type_refs_in_schema fuel ref_value definitions).
Proof. intros H. cbn [_resolve_type_refs_in_schema]. rewrite H. reflexivity. Qed.

Lemma resolve_mapping_eq (fuel : nat) d definitions :
  dict_get "$ref" d = None ->
  _resolve_type_refs_in_schema (S fuel) (VDict d) definitions
  = bind (map_values
            (fun v => _resolve_type_refs_in_schema fuel v definitions) d)
         (fun d' => Ok (VDict d')).
Proof. intros H. cbn [_resolve_type_refs_in_schema]. rewrite H. reflexivity. Qed.

Lemma resolve_sequence_eq (fuel : nat) l definitions :
  _resolve_type_refs_in_schema (S fuel) (VList l) definitions
  = bind (mapM (fun item =>
                  _resolve_type_refs_in_schema fuel item definitions) l)
         (fun l' => Ok (VList l')).
Proof. reflexivity. Qed.

Lemma resolve_scalar_eq (fuel : nat) v definitions :
  scalar v ->
  _resolve_type_refs_in_schema (S fuel) v definitions = Ok v.
Proof. destruct v; simpl; intros H; try reflexivity; contradiction. Qed.

Lemma resolve_sound (fuel : nat) :
  forall schema definitions r,
    _resolve_type_refs_in_schema fuel schema definitions = Ok r ->
    resolves definitions schema r.
Proof.
  induction fuel as [|fuel IH]; intros schema defs r H; [discriminate|].
  simpl in H. destruct schema as [| | | |l|d];
    try (injection H as <-; apply resolves_scalar; exact I).
  - inv_bind H. injection H as <-.
    apply resolves_sequence. apply mapM_ok_Forall2 in Ha.
    eapply Forall2_impl; [|exact Ha]. intros x y Hxy. apply IH; assumption.
  - destruct (dict_get "$ref" d) as [ref|] eqn:Eref.
    + inv_bind H. inv_bind H.
      destruct ref; simpl in Ha; try discriminate. injection Ha as <-.
      eapply resolves_ref; eauto.
    + inv_bind H. injection H as <-.
      apply resolves_mapping; [assumption|].
      apply mapM_ok_Forall2 in Ha.
      eapply Forall2_impl; [|exact Ha]. intros [k v] [k' v'] Hxy; simpl in *.
      inv_bind Hxy. injection Hxy as <- <-. split; [reflexivity|].
      apply IH; assumption.
Qed.

Lemma resolve_complete definitions schema r :
  resolves definitions schema r ->
  exists fuel, _resolve_type_refs_in_schema fuel schema definitions = Ok r.
Proof.
  intros H. induction H as [v Hv|l l' H|d d' Hd H|d pointer fragment r Hd Hp [n Hn]]
    using resolves_ind'.
  - exists 1. destruct v; simpl in *; try reflexivity; contradiction.
  - apply (Forall2_common_fuel
             (fun n x y => _resolve_type_refs_in_schema n x definitions = Ok y))
      in H; [|intros; eapply resolve_fuel_ok; eassumption].
    destruct H as [n Hn]. exists (S n). simpl.
    apply mapM_ok_Forall2 in Hn. rewrite Hn. reflexivity.
  - assert (H' : Forall2
                   (fun kv kv' =>
                      exists n,
                        fst kv' = fst kv
                        /\ _resolve_type_refs_in_schema n (snd kv) definitions
                           = Ok (snd kv')) d d').
    { eapply Forall2_impl; [|exact H].
      intros x y [Hk [n Hn]]. exists n. split; assumption. }
    apply (Forall2_common_fuel
             (fun n kv kv' =>
                fst kv' = fst kv
                /\ _resolve_type_refs_in_schema n (snd kv) definitions
                   = Ok (snd kv')))
      in H'.
    + destruct H' as [n Hn]. exists (S n). simpl. rewrite Hd.
      assert (Hm : map_values
                     (fun v => _resolve_type_refs_in_schema n v definitions) d
                   = Ok d').
      { apply mapM_ok_Forall2. eapply Forall2_impl; [|exact Hn].
        intros [k v] [k' v'] [Hk Hv]; simpl in *. rewrite Hv; simpl.
        subst; reflexivity. }
      rewrite Hm. reflexivity.
    + intros n m x y Hle [Hk Hv]. split; [assumption|].
      eapply resolve_fuel_ok; eassumption.
  - exists (S n). rewrite (resolve_ref_eq n d definitions Hd).
    rewrite Hp. exact Hn.
Qed.

(** C4. The resolver computes exactly the traversal the specification
    describes: for every document, definitions table and result, some depth
    of recursion makes [_resolve_type_refs_in_schema] return the result if
    and only if the result is the document with mappings copied key by key,
    their values resolved, every mapping that holds [$ref] replaced wholesale
    by the resolved referenced fragment, sequences resolved element-wise and
    scalars unchanged. *)
Theorem resolve_type_refs_traversal :
  forall definitions schema r,
    (exists fuel, _resolve_type_refs_in_schema fuel schema definitions = Ok r)
    <-> resolves definitions schema r.
Proof.
  intros definitions schema r. split.
  - intros [fuel H]. eapply resolve_sound; eassumption.
  - apply resolve_complete.
Qed.

Example resolve_nested_ref :
  _resolve_type_refs_in_schema 8
    (VDict [("type", VStr "array");
            ("items", VDict [("$ref", VStr "#/definitions/Foo");
                             ("description", VStr "dropped")])])
    (VDict [("Foo", VDict [("type", VStr "object");
                           ("properties",
                            VDict [("b", VDict [("$ref", VStr "#/definitions/Bar")])])]);
            ("Bar", VDict [("type", VStr "string")])])
  = Ok (VDict [("type", VStr "array");
               ("items",
                VDict [("type", VStr "object");
                       ("properties",
                        VDict [("b", VDict [("type", VStr "string")])])])]).
Proof. reflexivity. Qed.

(** ** The resolver: dangling references *)

(** [follow_path] fails only with the exceptions of a subscript. *)
Lemma follow_path_raise ref_path ref_value e :
  follow_path ref_path ref_value = Raise e -> e = KeyError \/ e = TypeError.
Proof.
  revert ref_value; induction ref_path as [|key rest IH]; intros v H;
    simpl in H; [discriminate|].
  destruct v as [| | | | |d]; simpl in H;
    try (injection H as <-; right; reflexivity).
  destruct (dict_get key d) as [x|]; simpl in H.
  - eapply IH; eassumption.
  - injection H as <-; left; reflexivity.
Qed.

Lemma follow_path_settled ref_path ref_value :
  follow_path ref_path ref_value <> OutOfFuel.
Proof.
  revert ref_value; induction ref_path as [|key rest IH]; intros v; simpl;
    [discriminate|].
  destruct v as [| | | | |d]; simpl; try discriminate.
  destruct (dict_get key d); simpl; [apply IH | discriminate].
Qed.

(** A path that cannot be followed makes the lookup of the code raise. *)
Lemma follow_path_fails ref_path ref_value e :
  path_fails ref_path ref_value e ->
  follow_path ref_path ref_value = Raise e.
Proof.
  induction 1 as [key rest d Hd|key rest v Hv|key rest d v e Hd _ IH]; simpl.
  - rewrite Hd. reflexivity.
  - destruct v; try reflexivity; contradiction.
  - rewrite Hd. simpl. exact IH.
Qed.

Lemma follow_path_leads ref_path ref_value fragment :
  path_leads ref_path ref_value fragment ->
  follow_path ref_path ref_value = Ok fragment.
Proof.
  induction 1 as [v|key rest d v w Hd _ IH]; simpl.
  - reflexivity.
  - rewrite Hd. simpl. exact IH.
Qed.

Lemma path_fails_exn ref_path ref_value e :
  path_fails ref_path ref_value e -> e = KeyError \/ e = TypeError.
Proof. induction 1; auto. Qed.

Lemma resolve_dangling_raises definitions d e :
  dangling definitions d e ->
  forall fuel,
    _resolve_type_refs_in_schema (S fuel) (VDict d) definitions = Raise e.
Proof.
  intros (pointer & Hd & Hp) fuel.
  rewrite (resolve_ref_eq fuel d definitions Hd).
  rewrite (follow_path_fails Hp). reflexivity.
Qed.

Lemma resolve_reaches_dangling_not_ok definitions schema :
  reaches_dangling definitions schema ->
  forall fuel r, _resolve_type_refs_in_schema fuel schema definitions <> Ok r.
Proof.
  induction 1 as [d e Hd|d pointer fragment Hd Hp _ IH|d k v Hd Hin _ IH
                 |l v Hin _ IH];
    intros [|fuel] r H; try discriminate.
  - rewrite (resolve_dangling_raises Hd fuel) in H. discriminate.
  - rewrite (resolve_ref_eq fuel d definitions Hd), (follow_path_leads Hp) in H.
    simpl in H. eapply IH; eassumption.
  - rewrite (resolve_mapping_eq fuel d definitions Hd) in H. inv_bind H.
    revert Ha. apply (mapM_raise_In _ _ (k, v) Hin).
    intros [k' v'] Hv. simpl in Hv. inv_bind Hv. eapply IH; eassumption.
  - rewrite resolve_sequence_eq in H. inv_bind H.
    revert Ha. apply (mapM_raise_In _ _ v Hin). exact (IH fuel).
Qed.

(** The first element that raises decides the result of the sequence. *)
Lemma mapM_raise_at {A B : Type} (f : A -> result B) before x after e :
  Forall (fun a => exists b, f a = Ok b) before ->
  f x = Raise e ->
  mapM f (before ++ x :: after) = Raise e.
Proof.
  induction 1 as [|a before [b Hb] _ IH]; intros Hx; simpl.
  - rewrite Hx. reflexivity.
  - rewrite Hb. simpl. rewrite (IH Hx). reflexivity.
Qed.

Lemma Forall_resolves_fuel {A : Type} (g : A -> value) definitions l :
  Forall (fun x => exists r, resolves definitions (g x) r) l ->
  exists N,
    forall fuel,
      N <= fuel ->
      Forall (fun x =>
                exists r,
                  _resolve_type_refs_in_schema fuel (g x) definitions = Ok r)
             l.
Proof.
  induction 1 as [|x l [r Hr] _ [N HN]].
  - exists 0. intros; constructor.
  - apply resolve_complete in Hr. destruct Hr as [M HM].
    exists (Nat.max M N). intros fuel Hfuel. constructor.
    + exists r. eapply resolve_fuel_ok; [|exact HM]. lia.
    + apply HN. lia.
Qed.

Lemma surfaces_exn definitions schema e :
  surfaces definitions schema e -> e = KeyError \/ e = TypeError.
Proof.
  induction 1 as [d e (pointer & _ & Hp)| | |]; try assumption.
  eapply path_fails_exn; eassumption.
Qed.

Lemma resolve_surfaces definitions schema e :
  surfaces definitions schema e ->
  exists N,
    forall fuel,
      N <= fuel ->
      _resolve_type_refs_in_schema fuel schema definitions = Raise e.
Proof.
  induction 1 as [d e Hd|d pointer fragment e Hd Hp _ [N IH]
                 |d before k v after e Hd Hsplit Hbefore _ [N IH]
                 |l before v after e Hsplit Hbefore _ [N IH]].
  - exists 1. intros [|fuel] Hfuel; [lia|].
    apply resolve_dangling_raises; assumption.
  - exists (S N). intros [|fuel] Hfuel; [lia|].
    rewrite (resolve_ref_eq fuel d definitions Hd), (follow_path_leads Hp).
    simpl. apply IH. lia.
  - destruct (Forall_resolves_fuel snd Hbefore) as [M HM].
    exists (S (Nat.max M N)). intros [|fuel] Hfuel; [lia|].
    rewrite (resolve_mapping_eq fuel d definitions Hd). subst d.
    unfold map_values.
    rewrite (@mapM_raise_at _ _ _ before (k, v) after e); [reflexivity| |].
    + eapply Forall_impl; [|apply (HM fuel); lia].
      intros [k' v'] [r Hr]. simpl in *. rewrite Hr. eexists; reflexivity.
    + simpl. rewrite IH by lia. reflexivity.
  - destruct (Forall_resolves_fuel (fun x => x) Hbefore) as [M HM].
    exists (S (Nat.max M N)). intros [|fuel] Hfuel; [lia|].
    rewrite resolve_sequence_eq. subst l.
    rewrite (@mapM_raise_at _ _ _ before v after e); [reflexivity| |].
    + apply (HM fuel). lia.
    + apply IH. lia.
Qed.

(** C5 (for the pointers that the traversal comes to).  A document in which
    the traversal comes to a [$ref] pointer whose path cannot be followed
    through the definitions table is never resolved: whatever the depth of
    recursion, the resolver returns no document, neither the unresolved
    mapping nor a partial result.  When moreover everything that is visited
    before that pointer resolves, the call raises the exception of the
    failed lookup, at every sufficient depth: [KeyError] for a key missing
    from a mapping, [TypeError] when the path runs into something that is
    not a mapping. *)
Theorem dangling_ref_is_fatal :
  forall definitions schema,
    (reaches_dangling definitions schema ->
     forall fuel r,
       _resolve_type_refs_in_schema fuel schema definitions <> Ok r)
    /\ (forall e,
          surfaces definitions schema e ->
          (e = KeyError \/ e = TypeError)
          /\ exists N,
               forall fuel,
                 N <= fuel ->
                 _resolve_type_refs_in_schema fuel schema definitions
                 = Raise e).
Proof.
  intros definitions schema. split.
  - apply resolve_reaches_dangling_not_ok.
  - intros e H. split.
    + eapply surfaces_exn; eassumption.
    + apply resolve_surfaces; assumption.
Qed.

Lemma dangling_example_dangling :
  dangling dangling_definitions [("$ref", VStr "#/definitions/Foo")] KeyError.
Proof.
  exists "#/definitions/Foo". split; [reflexivity|].
  apply path_missing. reflexivity.
Qed.

Lemma dangling_ref_is_fatal_witness :
  (forall fuel r,
      _resolve_type_refs_in_schema fuel dangling_example dangling_definitions
      <> Ok r)
  /\ ((KeyError = KeyError \/ KeyError = TypeError)
      /\ exists N,
           forall fuel,
             N <= fuel ->
             _resolve_type_refs_in_schema fuel dangling_example
               dangling_definitions
             = Raise KeyError).
Proof.
  destruct (dangling_ref_is_fatal dangling_definitions dangling_example)
    as [Hnever Hraises].
  split.
  - apply Hnever.
    eapply reaches_value; [reflexivity | right; left; reflexivity |].
    eapply reaches_element; [left; reflexivity |].
    eapply reaches_here. exact dangling_example_dangling.
  - apply Hraises.
    apply (@surfaces_value dangling_definitions _
             [("title", VStr "t")] "items"
             (VList [VDict [("$ref", VStr "#/definitions/Foo")]]) []);
      [reflexivity | reflexivity | |].
    + repeat constructor. exists (VStr "t"). apply resolves_scalar. exact I.
    + apply (@surfaces_element dangling_definitions _ []
               (VDict [("$ref", VStr "#/definitions/Foo")]) []);
        [reflexivity | constructor |].
      apply surfaces_here. exact dangling_example_dangling.
Defined.

(** A dangling pointer among the sibling keys of a [$ref] is not visited:
    the mapping is replaced by the fragment and the document resolves. *)
Lemma dangling_sibling_counterexample :
  contains_dangling dangling_definitions dangling_sibling_example
  /\ _resolve_type_refs_in_schema 3 dangling_sibling_example
       dangling_definitions
     = Ok (VDict [("type", VStr "string")]).
Proof.
  split; [|reflexivity].
  apply (@contains_value dangling_definitions _ "x"
           (VDict [("$ref", VStr "#/definitions/Foo")])).
  - right; left; reflexivity.
  - eapply contains_here. exact dangling_example_dangling.
Qed.

Example resolve_dangling_example :
  _resolve_type_refs_in_schema 5 dangling_example dangling_definitions
  = Raise KeyError.
Proof. reflexivity. Qed.

Example resolve_missing_definition :
  _resolve_type_refs_in_schema 5
    (VDict [("$ref", VStr "#/definitions/Foo")])
    (VDict [("Bar", VDict [("type", VStr "string")])])
  = Raise KeyError.
Proof. reflexivity. Qed.

(** ** Encoding: which keys a document has *)

Ltac case_fields :=
  repeat (match goal with
          | |- context [match ?x with _ => _ end] => is_var x; destruct x
          end; cbn).

Ltac unfold_fields := cbv [of_opt_str of_opt_int type_is] in *.

Ltac case_node self :=
  destruct self as [description_ [[]|] enum_ required_ default_ items_
                      properties_ additional_properties_ minimum_ maximum_
                      minItems_ maxItems_];
  cbn in *; unfold_fields; cbn in *; case_fields.

Lemma to_dict_default (repr : value -> string) (self : JSONSchema) :
  dict_get "default" (to_dict repr self) = Some (VStr (repr (default self))).
Proof.
  case_node self; reflexivity.
Qed.

Lemma filter_In_value {A : Type} (keep : string * A -> bool) d k v :
  dict_get k (filter keep d) = Some v -> keep (k, v) = true.
Proof.
  induction d as [|[k' v'] d IH]; simpl; [discriminate|].
  destruct (keep (k', v')) eqn:Ek; simpl; [|exact IH].
  destruct (String.eqb k k') eqn:E; [|exact IH].
  apply String.eqb_eq in E. subst k'. intros [= <-]. exact Ek.
Qed.

(** No key of an encoded document is mapped to [None]. *)
Lemma to_dict_no_null (repr : value -> string) (self : JSONSchema) (k : string) :
  dict_get k (to_dict repr self) <> Some VNone.
Proof.
  intros H. destruct self. cbn [to_dict] in H.
  apply filter_In_value in H. discriminate H.
Qed.

(** A node without a kind is encoded without the key [type]. *)
Lemma to_dict_no_type (repr : value -> string) (self : JSONSchema) :
  type self = None -> dict_get "type" (to_dict repr self) = None.
Proof.
  intros H. destruct self as [d t e r df i p a mn mx mni mxi].
  simpl in H. subst t. cbn. unfold_fields. cbn. case_fields; reflexivity.
Qed.

(** C2. The encoder always emits the key [default]: it holds the [repr] of
    the node's default, which for a node without a default is the text of
    [None], a string that the filter of absent fields keeps. *)
Theorem to_dict_default_always_emitted :
  forall (repr : value -> string) (self : JSONSchema),
    dict_get "default" (to_dict repr self)
    = Some (VStr (repr (default self))).
Proof. exact to_dict_default. Qed.

Example to_dict_string_node :
  to_dict repr_lit
    (mkJSONSchema None (Some STRING) None false VNone None None None
                  None None None None)
  = [("type", VStr "string"); ("default", VStr "None")].
Proof. reflexivity. Qed.

(** ** The projections *)

(** C9. An object node with declared properties has no Python type:
    [python_type] raises [NotImplementedError]; an object node whose
    properties are absent or empty projects to [dict]. *)
Theorem python_type_object :
  forall (repr : value -> string) (self : JSONSchema),
    type self = Some OBJECT ->
    match properties self with
    | Some (_ :: _) => python_type repr self = Raise NotImplementedError
    | Some [] | None => python_type repr self = Ok "dict"
    end.
Proof.
  intros repr self H.
  destruct self as [d t e r df i p a mn mx mni mxi]. simpl in H. subst t.
  cbn. destruct p as [[|np ps]|]; reflexivity.
Qed.

Lemma python_type_object_witness :
  python_type repr_lit person_node = Raise NotImplementedError
  /\ python_type repr_lit open_object_node = Ok "dict".
Proof.
  split.
  - exact (python_type_object repr_lit person_node eq_refl).
  - exact (python_type_object repr_lit open_object_node eq_refl).
Defined.

(** The primitive kinds are looked up before [enum] is: a node of kind
    [string], [integer], [number] or [boolean] projects to its primitive
    whatever its [enum]. *)
Lemma python_type_primitive repr self t p :
  type self = Some t ->
  table_get Type_eqb t _JSON_TO_PYTHON_TYPE = Some p ->
  python_type repr self = Ok (PyPrim_name p).
Proof.
  intros Ht Hp. destruct self as [d t' e r df i ps a mn mx mni mxi].
  simpl in Ht. subst t'. cbn [python_type type]. rewrite Hp. reflexivity.
Qed.

(** The union of literals is what a node of kind [type] with a non-empty
    [enum] projects to, in both projections. *)
Lemma enum_projection_kind_type repr indent self v e :
  type self = Some TYPE -> enum self = Some (v :: e) ->
  python_type repr self = Ok ("Union[" ++ join ", " (map repr (v :: e)) ++ "]")
  /\ typescript_type repr indent self = Ok (join " | " (map repr (v :: e))).
Proof.
  intros Ht He. destruct self as [d t' e' r df i ps a mn mx mni mxi].
  simpl in Ht, He. subst t' e'. split; reflexivity.
Qed.

(** Without a kind the two projections part: the Python one gives the
    union, the TypeScript one [any]. *)
Lemma enum_projection_untyped repr indent self v e :
  type self = None -> enum self = Some (v :: e) ->
  python_type repr self = Ok ("Union[" ++ join ", " (map repr (v :: e)) ++ "]")
  /\ typescript_type repr indent self = Ok "any".
Proof.
  intros Ht He. destruct self as [d t' e' r df i ps a mn mx mni mxi].
  simpl in Ht, He. subst t' e'. split; reflexivity.
Qed.

(** C3. A node of kind [string] with the enum [["a", "b"]] does not project
    to the union of its literals: [python_type] gives [str] and
    [typescript_type] gives [string], for any [repr] and [indent]. *)
Theorem string_enum_projects_to_primitive :
  forall (repr : value -> string) (indent : string -> string -> string),
    let node :=
      mkJSONSchema None (Some STRING) (Some [VStr "a"; VStr "b"]) false VNone
                   None None None None None None None in
    python_type repr node = Ok "str"
    /\ typescript_type repr indent node = Ok "string".
Proof. intros repr indent node. split; reflexivity. Qed.

(** ** Inference *)

(** C8. For the bare class [list], [get_args] is empty, and subscripting it
    raises [IndexError]: no array node is returned. *)
Theorem from_python_type_bare_list :
  forall (literal_eval : string -> result value) (fuel : nat),
    from_python_type literal_eval fuel T_list = Raise IndexError.
Proof. intros literal_eval fuel. reflexivity. Qed.

(** A subscripted list such as [list[str]] is not a class, so
    [issubclass(T, BaseModel)], tested before the list case, raises
    [TypeError]. *)
Lemma from_python_type_list_alias literal_eval fuel args :
  from_python_type literal_eval fuel (T_alias O_list args) = Raise TypeError.
Proof. reflexivity. Qed.

Lemma from_python_type_optional literal_eval fuel p t :
  table_get PyPrim_eqb p _PYTHON_TO_JSON_TYPE = Some t ->
  from_python_type literal_eval fuel (T_alias O_Union [T_prim p; T_NoneType])
  = Ok (mkJSONSchema None (Some t) None false VNone None None None
                     None None None None).
Proof. intros H. destruct p; cbn in H; injection H as <-; reflexivity. Qed.

(** ** Decoding *)

Lemma Forall2_In_r {A B : Type} (R : A -> B -> Prop) l l' y :
  Forall2 R l l' -> In y l' -> exists x, In x l /\ R x y.
Proof.
  induction 1 as [|a b l l' Hab _ IH]; intros Hin; [contradiction|].
  destruct Hin as [<-|Hin].
  - exists a. split; [left; reflexivity | assumption].
  - destruct (IH Hin) as (x & Hx & Hxy). exists x. split; [right|]; assumption.
Qed.

Lemma Forall2_In_l {A B : Type} (R : A -> B -> Prop) l l' x :
  Forall2 R l l' -> In x l -> exists y, In y l' /\ R x y.
Proof.
  induction 1 as [|a b l l' Hab _ IH]; intros Hin; [contradiction|].
  destruct Hin as [<-|Hin].
  - exists b. split; [left; reflexivity | assumption].
  - destruct (IH Hin) as (y & Hy & Hxy). exists y. split; [right|]; assumption.
Qed.

Lemma value_eqb_str (k : string) (v : value) :
  value_eqb (VStr k) v = true <-> v = VStr k.
Proof.
  destruct v; simpl; split; intros H; try discriminate.
  - apply String.eqb_eq in H. subst; reflexivity.
  - injection H as ->. apply String.eqb_refl.
Qed.

(** [k in req] for a list [req]. *)
Lemma existsb_value_eqb_str (k : string) (req : list value) :
  existsb (value_eqb (VStr k)) req = true <-> In (VStr k) req.
Proof.
  rewrite existsb_exists. split.
  - intros (x & Hin & Hx). apply value_eqb_str in Hx. subst; assumption.
  - intros Hin. exists (VStr k). split; [assumption|].
    apply value_eqb_str; reflexivity.
Qed.

Section Decoding.

Variable literal_eval : string -> result value.

(** A node that [from_dict] returns has [required] at its default. *)
Lemma from_dict_required_false fuel schema n :
  from_dict literal_eval fuel schema = Ok n -> required n = false.
Proof.
  destruct fuel as [|fuel]; [discriminate|]. cbn [from_dict]. intros H.
  repeat inv_bind H. injection H as <-. reflexivity.
Qed.

(** In the properties that [parse_properties] decodes from a document, the
    [required] flag of the property named [k] says whether [k] is a member
    of the document's [required] list; when the document has no [required]
    key, every flag is false. *)
Lemma parse_properties_flags :
  forall fuel schema_node props,
    parse_properties literal_eval fuel schema_node = Ok props ->
    forall k v,
      In (k, v) props ->
      (forall req,
          dict_get "required" schema_node = Some (VList req) ->
          (required v = true <-> In (VStr k) req))
      /\ (dict_get "required" schema_node = None -> required v = false).
Proof.
  intros fuel node props H k v Hin.
  unfold parse_properties, parse_properties_with in H.
  inv_bind H. rename a into decoded.
  assert (Hdec : forall k' v', In (k', v') decoded -> required v' = false).
  { intros k' v' Hin'.
    destruct (dict_get "properties" node) as [[| | | | |ps]|];
      try discriminate.
    - apply mapM_ok_Forall2 in Ha.
      destruct (Forall2_In_r _ Ha Hin') as ([k0 doc] & _ & Hd).
      simpl in Hd. inv_bind Hd. injection Hd as _ <-.
      eapply from_dict_required_false; eassumption.
    - injection Ha as <-. contradiction. }
  split.
  - intros req Hreq. rewrite Hreq in H. apply mapM_ok_Forall2 in H.
    destruct (Forall2_In_r _ H Hin) as ([k0 v0] & _ & Hkv).
    simpl in Hkv. injection Hkv as <- <-. simpl.
    apply existsb_value_eqb_str.
  - intros Hreq. rewrite Hreq in H. injection H as <-.
    eapply Hdec; eassumption.
Qed.

End Decoding.

Example parse_properties_required_example :
  parse_properties literal_eval_lit 3 required_example
  = Ok [("a", string_prop true); ("b", integer_prop false)].
Proof. reflexivity. Qed.

Example from_dict_required_present :
  from_dict literal_eval_lit 6 (VDict required_example)
  = Ok required_example_node.
Proof. reflexivity. Qed.

Example from_dict_required_absent :
  from_dict literal_eval_lit 6 (VDict optional_example)
  = Ok optional_example_node.
Proof. reflexivity. Qed.

(** The constructor reads a number given as [description] as its text, a
    numeral given as a bound as its number, and a bool as 0 or 1. *)
Example from_dict_coerced_fields :
  from_dict literal_eval_lit 3
    (VDict [ ("type", VStr "integer"); ("description", VInt 5);
             ("minimum", VStr " 3 "); ("maxItems", VBool true) ])
  = Ok (mkJSONSchema (Some "5") (Some INTEGER) None false VNone None None
                     None (Some 3%Z) None None (Some 1%Z)).
Proof. reflexivity. Qed.

Example from_dict_rejected_fields :
  from_dict literal_eval_lit 3
    (VDict [("type", VStr "integer"); ("maxItems", VStr "3.5")])
  = Raise ValidationError
  /\ from_dict literal_eval_lit 3
       (VDict [("type", VStr "integer"); ("description", VList [])])
     = Raise ValidationError
  /\ from_dict literal_eval_lit 3 (VDict [("type", VStr "text")])
     = Raise ValidationError.
Proof. repeat split. Qed.

Lemma resolve_deterministic fuel fuel' schema definitions r r' :
  _resolve_type_refs_in_schema fuel schema definitions = Ok r ->
  _resolve_type_refs_in_schema fuel' schema definitions = Ok r' ->
  r = r'.
Proof.
  intros H H'.
  apply (resolve_fuel_ok (fuel' := Nat.max fuel fuel')) in H;
    [|apply Nat.le_max_l].
  apply (resolve_fuel_ok (fuel' := Nat.max fuel fuel')) in H';
    [|apply Nat.le_max_r].
  congruence.
Qed.

Tactic Notation "step" hyp(H) "as" ident(x) ident(Hx) :=
  apply bind_ok in H; destruct H as (x & Hx & H).

Section DecodingType.

Variable literal_eval : string -> result value.





End DecodingType.


Example from_dict_untyped_items :
  from_dict literal_eval_lit 6 untyped_items_example = Raise KeyError.
Proof. reflexivity. Qed.

(** ** Encoding, key by key *)

Section EncodingTable.

Variable repr : value -> string.

Lemma to_dict_no_ref self : dict_get "$ref" (to_dict repr self) = None.
Proof. case_node self; reflexivity. Qed.

Lemma to_dict_no_definitions self :
  dict_get "definitions" (to_dict repr self) = None.
Proof. case_node self; reflexivity. Qed.

Lemma to_dict_description self :
  get (VDict (to_dict repr self)) "description"
  = Ok (of_opt_str (description self)).
Proof. case_node self; reflexivity. Qed.

Lemma to_dict_type self t :
  type self = Some t ->
  subscript (VDict (to_dict repr self)) "type" = Ok (VStr (Type_value t)).
Proof.
  intros H. case_node self; try discriminate; injection H as <-; reflexivity.
Qed.

Lemma to_dict_enum_absent self :
  enum self = None -> get (VDict (to_dict repr self)) "enum" = Ok VNone.
Proof. intros H. case_node self; try discriminate; reflexivity. Qed.

Lemma to_dict_items self :
  get (VDict (to_dict repr self)) "items"
  = Ok (if type_is self ARRAY
        then match items self with
             | Some i => VDict (to_dict repr i)
             | None => VNone
             end
        else VNone).
Proof. case_node self; reflexivity. Qed.

Lemma to_dict_properties self :
  dict_get "properties" (to_dict repr self)
  = if type_is self OBJECT
    then match properties self with
         | Some ((_ :: _) as props) =>
             Some (VDict (map (fun np => (fst np, VDict (to_dict repr (snd np))))
                              props))
         | _ => None
         end
    else None.
Proof. case_node self; reflexivity. Qed.

Lemma to_dict_required self :
  dict_get "required" (to_dict repr self)
  = if type_is self OBJECT
    then match properties self with
         | Some ((_ :: _) as props) =>
             Some (VList (map (fun np => VStr (fst np))
                              (filter (fun np => required (snd np)) props)))
         | _ => None
         end
    else None.
Proof. case_node self; reflexivity. Qed.

Lemma to_dict_additional_absent self :
  additional_properties self = None ->
  get (VDict (to_dict repr self)) "additionalProperties" = Ok VNone.
Proof. intros H. case_node self; try discriminate; reflexivity. Qed.

(** The encoder writes the lower bound under the key [minumum]; no document
    it produces has the key [minimum]. *)
Lemma to_dict_minimum self :
  get (VDict (to_dict repr self)) "minimum" = Ok VNone.
Proof. case_node self; reflexivity. Qed.

Lemma to_dict_maximum self :
  get (VDict (to_dict repr self)) "maximum"
  = Ok (if type_is self ARRAY || type_is self OBJECT then VNone
        else match enum self with
             | Some (_ :: _) => VNone
             | _ => of_opt_int (maximum self)
             end).
Proof. case_node self; reflexivity. Qed.

Lemma to_dict_minItems self :
  get (VDict (to_dict repr self)) "minItems"
  = Ok (if type_is self ARRAY then of_opt_int (minItems self) else VNone).
Proof. case_node self; reflexivity. Qed.

Lemma to_dict_maxItems self :
  get (VDict (to_dict repr self)) "maxItems"
  = Ok (if type_is self ARRAY then of_opt_int (maxItems self) else VNone).
Proof. case_node self; reflexivity. Qed.

End EncodingTable.

(** ** Documents without references *)

Lemma list_max_In {A : Type} (f : A -> nat) (l : list A) (x : A) :
  In x l -> f x <= list_max (map f l).
Proof.
  induction l as [|a l IH]; intros Hin; [contradiction|]. simpl.
  destruct Hin as [->|Hin]; [lia|]. specialize (IH Hin). lia.
Qed.

Lemma dict_get_In {A : Type} (k : string) (d : list (string * A)) (v : A) :
  dict_get k d = Some v -> In (k, v) d.
Proof.
  induction d as [|[k' v'] d IH]; simpl; [discriminate|].
  destruct (String.eqb k k') eqn:E.
  - apply String.eqb_eq in E. subst. intros [= ->]. left; reflexivity.
  - intros H. right. apply IH; assumption.
Qed.

Lemma dict_get_not_In {A : Type} (k : string) (d : list (string * A)) :
  ~ In k (map fst d) -> dict_get k d = None.
Proof.
  induction d as [|[k' v'] d IH]; simpl; intros H; [reflexivity|].
  destruct (String.eqb k k') eqn:E.
  - apply String.eqb_eq in E. subst. exfalso. apply H. left; reflexivity.
  - apply IH. intros Hin. apply H. right; assumption.
Qed.

Lemma height_value d k v : In (k, v) d -> height v < height (VDict d).
Proof.
  intros Hin. simpl.
  apply (list_max_In (fun kv => height (snd kv))) in Hin. simpl in Hin. lia.
Qed.

Lemma height_element l v : In v l -> height v < height (VList l).
Proof.
  intros Hin. simpl. apply (list_max_In height) in Hin. lia.
Qed.

(** On a document without [$ref] the resolver is the identity (it returns
    an equal copy), once the fuel exceeds the document's height. *)
Lemma resolve_ref_free definitions schema :
  ref_free schema ->
  forall fuel,
    height schema < fuel ->
    _resolve_type_refs_in_schema fuel schema definitions = Ok schema.
Proof.
  induction schema as [| | | |l IH|d IH] using value_ind';
    intros Hfree [|fuel] Hfuel; try lia; try reflexivity.
  - rewrite resolve_sequence_eq.
    assert (Hm : mapM (fun item =>
                         _resolve_type_refs_in_schema fuel item definitions) l
                 = Ok l).
    { inversion Hfree as [v Hv| l' Hl |]; subst; [contradiction|].
      apply mapM_ok_Forall2.
      assert (Hh : forall x, In x l -> height x < fuel).
      { intros x Hx. apply height_element in Hx. lia. }
      clear Hfuel Hfree. induction l as [|x l IHl]; constructor.
      - inversion IH; inversion Hl; subst. apply H1; [assumption|].
        apply Hh. left; reflexivity.
      - inversion IH; inversion Hl; subst. apply IHl; try assumption.
        intros y Hy. apply Hh. right; assumption. }
    rewrite Hm. reflexivity.
  - inversion Hfree as [v Hv| |d' Href Hd]; subst; [contradiction|].
    rewrite (resolve_mapping_eq fuel d definitions Href).
    assert (Hm : map_values
                   (fun v => _resolve_type_refs_in_schema fuel v definitions) d
                 = Ok d).
    { apply mapM_ok_Forall2.
      assert (Hh : forall kv, In kv d -> height (snd kv) < fuel).
      { intros [k v] Hx. apply height_value in Hx. simpl. lia. }
      clear Hfuel Hfree Href. induction d as [|[k v] d IHd]; constructor.
      - inversion IH; inversion Hd; subst. simpl in *.
        rewrite H1; [reflexivity | assumption |].
        apply (Hh (k, v)). left; reflexivity.
      - inversion IH; inversion Hd; subst. apply IHd; try assumption.
        intros y Hy. apply Hh. right; assumption. }
    rewrite Hm. reflexivity.
Qed.

(** ** Induction on schema nodes *)

Section JSONSchema_induction.

Variable P : JSONSchema -> Prop.
Hypothesis Hnode :
  forall d t e r df i ps a mn mx mni mxi,
    match i with Some x => P x | None => True end ->
    match ps with
    | Some l => Forall (fun np => P (snd np)) l
    | None => True
    end ->
    match a with Some x => P x | None => True end ->
    P (mkJSONSchema d t e r df i ps a mn mx mni mxi).

Fixpoint JSONSchema_ind' (n : JSONSchema) : P n :=
  match n with
  | mkJSONSchema d t e r df i ps a mn mx mni mxi =>
      @Hnode d t e r df i ps a mn mx mni mxi
        match i with Some x => JSONSchema_ind' x | None => I end
        match ps with
        | Some l =>
            (fix go (l : list (string * JSONSchema))
               : Forall (fun np => P (snd np)) l :=
               match l with
               | [] => Forall_nil _
               | np :: l' => Forall_cons _ (JSONSchema_ind' (snd np)) (go l')
               end) l
        | None => I
        end
        match a with Some x => JSONSchema_ind' x | None => I end
  end.

End JSONSchema_induction.

(** ** Helpers on lists and keys *)

Lemma nodup_keys {A : Type} (ps : list (string * A)) (x y : string * A) :
  NoDup (map fst ps) -> In x ps -> In y ps -> fst x = fst y -> x = y.
Proof.
  induction ps as [|p ps IH]; simpl; intros Hnd Hx Hy Hk; [contradiction|].
  inversion Hnd as [|? ? Hnotin Hnd']; subst.
  destruct Hx as [->|Hx], Hy as [->|Hy]; try reflexivity.
  - exfalso. apply Hnotin. rewrite Hk. apply in_map; assumption.
  - exfalso. apply Hnotin. rewrite <- Hk. apply in_map; assumption.
  - apply IH; assumption.
Qed.

Lemma Forall2_map_same {A B C : Type} (R : B -> C -> Prop)
    (f : A -> B) (g : A -> C) (l : list A) :
  (forall x, In x l -> R (f x) (g x)) -> Forall2 R (map f l) (map g l).
Proof.
  induction l as [|x l IH]; intros H; simpl; constructor.
  - apply H. left; reflexivity.
  - apply IH. intros y Hy. apply H. right; assumption.
Qed.

(** The name of a property is in the encoded [required] list exactly when
    the property is required. *)
Lemma required_membership (ps : list (string * JSONSchema)) np :
  NoDup (map fst ps) -> In np ps ->
  existsb (value_eqb (VStr (fst np)))
          (map (fun np => VStr (fst np))
               (filter (fun np => required (snd np)) ps))
  = required (snd np).
Proof.
  intros Hnd Hin. destruct (required (snd np)) eqn:Er.
  - apply existsb_value_eqb_str. apply (in_map (fun np => VStr (fst np))).
    apply filter_In. split; assumption.
  - apply not_true_is_false. intros H. apply existsb_value_eqb_str in H.
    apply in_map_iff in H. destruct H as (np' & Hk & Hin').
    apply filter_In in Hin'. destruct Hin' as (Hin' & Hr').
    injection Hk as Hk.
    assert (np' = np) by (eapply nodup_keys; eassumption).
    subst np'. congruence.
Qed.

Lemma JSONSchema_children_ind (P : JSONSchema -> Prop) :
  (forall n,
      (forall i, items n = Some i -> P i) ->
      (forall ps np, properties n = Some ps -> In np ps -> P (snd np)) ->
      P n) ->
  forall n, P n.
Proof.
  intros H n.
  induction n as [d t e r df i ps a mn mx mni mxi IHi IHps _]
    using JSONSchema_ind'.
  apply H; simpl.
  - intros i' ->. exact IHi.
  - intros ps' np ->. rewrite Forall_forall in IHps. apply IHps.
Qed.

Lemma validate_of_opt_str o : validate_opt_str (of_opt_str o) = Ok o.
Proof. destruct o; reflexivity. Qed.

Lemma validate_of_opt_int o : validate_opt_int (of_opt_int o) = Ok o.
Proof. destruct o; reflexivity. Qed.

Lemma validate_number_of_opt_int o :
  validate_opt_number (of_opt_int o) = Ok o.
Proof. destruct o; reflexivity. Qed.

Lemma validate_Type_value t :
  validate_opt_Type (VStr (Type_value t)) = Ok (Some t).
Proof. destruct t; reflexivity. Qed.

Lemma value_eqb_Type_object t :
  value_eqb (VStr (Type_value t)) (VStr "object") = Type_eqb t OBJECT.
Proof. reflexivity. Qed.

Lemma equivalent_set_required n n' b :
  equivalent n n' -> equivalent n (set_required b n').
Proof.
  intros H. inversion H; subst. constructor; assumption.
Qed.

(** ** Round trip through the document form *)

Section RoundTrip.

Variable repr : value -> string.
Variable literal_eval : string -> result value.

Local Abbreviation literal_ok := (literal_ok repr literal_eval).
Local Abbreviation well_formed := (well_formed repr literal_eval).

Lemma well_formed_all ps :
  (fix all (ps : list (string * JSONSchema)) : Prop :=
     match ps with
     | [] => True
     | np :: ps' => well_formed (snd np) /\ all ps'
     end) ps
  <-> Forall (fun np => well_formed (snd np)) ps.
Proof.
  induction ps as [|np ps IH]; split; intros H.
  - constructor.
  - exact I.
  - destruct H as [H1 H2]. constructor; [assumption | apply IH; assumption].
  - inversion H; subst. split; [assumption | apply IH; assumption].
Qed.

Ltac ref_free_entries :=
  repeat first [ apply Forall_nil
               | apply Forall_cons
               | apply ref_free_scalar; exact I ].

Lemma to_dict_ref_free (n : JSONSchema) :
  well_formed n -> ref_free (VDict (to_dict repr n)).
Proof.
  induction n as [d t e r df i ps a mn mx mni mxi IHi IHps IHa]
    using JSONSchema_ind'.
  intros Hwf.
  apply ref_free_mapping; [apply to_dict_no_ref|].
  cbn [well_formed default enum additional_properties type items properties
       maximum minItems maxItems] in Hwf.
  destruct Hwf as (_ & -> & -> & Hwf).
  destruct t as [[]|]; try contradiction;
    try (destruct Hwf as (-> & -> & -> & ->); cbn; unfold_fields; cbn;
         case_fields; ref_free_entries).
  - (* array *)
    destruct Hwf as (-> & -> & Hi). cbn. unfold_fields. cbn.
    destruct i as [i|]; cbn; case_fields; ref_free_entries.
    all: simpl; apply IHi; assumption.
  - (* object *)
    destruct Hwf as (-> & -> & -> & -> & Hps). cbn. unfold_fields. cbn.
    assert (Hprops :
              forall l, ps = Some l ->
                ref_free
                  (VDict (map (fun np => (fst np, VDict (to_dict repr (snd np))))
                              l))
                /\ ref_free
                     (VList (map (fun np => VStr (fst np))
                                 (filter (fun np => required (snd np)) l)))).
    { intros l ->. destruct Hps as (_ & Hnoref & Hall).
      apply well_formed_all in Hall. split.
      - apply ref_free_mapping.
        + apply dict_get_not_In. rewrite map_map. exact Hnoref.
        + apply Forall_forall. intros kv Hkv. apply in_map_iff in Hkv.
          destruct Hkv as (x & <- & Hx). simpl.
          rewrite Forall_forall in IHps, Hall. apply IHps; auto.
      - apply ref_free_sequence. apply Forall_forall.
        intros x Hx. apply in_map_iff in Hx.
        destruct Hx as (y & <- & _). apply ref_free_scalar. exact I. }
    clear Hps IHps.
    destruct ps as [[|np ps]|]; cbn; case_fields; ref_free_entries.
    all: first [ exact (proj1 (Hprops _ eq_refl))
               | exact (proj2 (Hprops _ eq_refl)) ].
Qed.

Lemma well_formed_common n :
  well_formed n ->
  literal_ok (default n) /\ enum n = None /\ additional_properties n = None
  /\ exists t, type n = Some t.
Proof.
  destruct n as [d t e r df i ps a mn mx mni mxi]. cbn.
  intros (Hd & He & Ha & Ht).
  split; [exact Hd|]. split; [exact He|]. split; [exact Ha|].
  destruct t as [t|]; [exists t; reflexivity | contradiction].
Qed.

Lemma well_formed_array n :
  well_formed n -> type n = Some ARRAY ->
  properties n = None /\ maximum n = None
  /\ forall i, items n = Some i -> well_formed i.
Proof.
  destruct n as [d t e r df i ps a mn mx mni mxi]. cbn.
  intros (_ & _ & _ & H) ->. destruct H as (Hp & Hm & Hi).
  repeat split; try assumption. intros i' ->. exact Hi.
Qed.

Lemma well_formed_object n :
  well_formed n -> type n = Some OBJECT ->
  items n = None /\ maximum n = None /\ minItems n = None
  /\ maxItems n = None
  /\ forall ps,
       properties n = Some ps ->
       NoDup (map fst ps) /\ ~ In "$ref" (map fst ps)
       /\ Forall (fun np => well_formed (snd np)) ps.
Proof.
  destruct n as [d t e r df i ps a mn mx mni mxi]. cbn.
  intros (_ & _ & _ & H) ->. destruct H as (Hi & Hm & Hmi & Hma & Hps).
  repeat split; try assumption; destruct ps as [l|]; try discriminate;
    injection H as <-; destruct Hps as (Hnd & Hnr & Hall); try assumption.
  apply well_formed_all; assumption.
Qed.

Lemma well_formed_scalar n t :
  well_formed n -> type n = Some t -> t <> ARRAY -> t <> OBJECT ->
  items n = None /\ properties n = None /\ minItems n = None
  /\ maxItems n = None.
Proof.
  destruct n as [d t' e r df i ps a mn mx mni mxi]. cbn.
  intros (_ & _ & _ & H) -> Ha Ho. destruct t; try assumption; congruence.
Qed.

Lemma to_dict_get_default n :
  get (VDict (to_dict repr n)) "default" = Ok (VStr (repr (default n))).
Proof. cbn [get]. rewrite to_dict_default. reflexivity. Qed.

Lemma to_dict_truthy n : truthy (VDict (to_dict repr n)) = true.
Proof.
  pose proof (to_dict_default repr n) as H. simpl.
  destruct (to_dict repr n); [discriminate | reflexivity].
Qed.

Lemma get_Some d k v :
  get (VDict d) k = Ok v -> v <> VNone -> dict_get k d = Some v.
Proof.
  simpl. destruct (dict_get k d); intros [= <-] H; [reflexivity | congruence].
Qed.

Lemma to_dict_items_height n i :
  type n = Some ARRAY -> items n = Some i ->
  height (VDict (to_dict repr i)) < height (VDict (to_dict repr n)).
Proof.
  intros Ht Hi. apply (height_value (to_dict repr n) "items").
  apply dict_get_In. apply get_Some; [|discriminate].
  rewrite to_dict_items. unfold type_is. rewrite Ht, Hi. reflexivity.
Qed.

Lemma to_dict_property_height n ps np :
  type n = Some OBJECT -> properties n = Some ps -> In np ps ->
  height (VDict (to_dict repr (snd np))) < height (VDict (to_dict repr n)).
Proof.
  intros Ht Hp Hin.
  pose proof (to_dict_properties repr n) as H.
  unfold type_is in H. rewrite Ht, Hp in H. cbn in H.
  destruct ps as [|p ps]; [contradiction|].
  apply dict_get_In in H. apply height_value in H.
  assert (Hc : height (VDict (to_dict repr (snd np)))
               < height (VDict (map (fun np => (fst np,
                                                 VDict (to_dict repr (snd np))))
                                    (p :: ps)))).
  { apply (height_value _ (fst np)).
    apply (in_map (fun np => (fst np, VDict (to_dict repr (snd np))))).
    exact Hin. }
  lia.
Qed.

Lemma decode_children (from : value -> result JSONSchema) ps :
  (forall np, In np ps ->
              from (VDict (to_dict repr (snd np))) = Ok (decoded (snd np))) ->
  map_values from (map (fun np => (fst np, VDict (to_dict repr (snd np)))) ps)
  = Ok (map (fun np => (fst np, decoded (snd np))) ps).
Proof.
  intros H. apply mapM_ok_Forall2. apply Forall2_map_same.
  intros np Hin. simpl. rewrite (H np Hin). reflexivity.
Qed.

Lemma decode_required (ps : list (string * JSONSchema)) :
  NoDup (map fst ps) ->
  mapM (fun kv =>
          b <- py_in (fst kv)
                 (VList (map (fun np => VStr (fst np))
                             (filter (fun np => required (snd np)) ps))) ;;
          Ok (fst kv, set_required b (snd kv)))
       (map (fun np => (fst np, decoded (snd np))) ps)
  = Ok (map (fun np =>
               (fst np, set_required (required (snd np)) (decoded (snd np))))
            ps).
Proof.
  intros Hnd. apply mapM_ok_Forall2. apply Forall2_map_same.
  intros np Hin. cbn [fst snd py_in bind].
  rewrite (required_membership _ _ Hnd Hin). reflexivity.
Qed.

Lemma decode_encode :
  forall n,
    well_formed n ->
    forall fuel,
      height (VDict (to_dict repr n)) + 2 <= fuel ->
      from_dict literal_eval fuel (VDict (to_dict repr n)) = Ok (decoded n).
Proof.
  induction n as [n IHi IHps] using JSONSchema_children_ind.
  intros Hwf fuel Hfuel.
  destruct (well_formed_common _ Hwf) as ((Hne & Hlit) & Henum & Hap & t & Ht).
  destruct fuel as [|f]; [lia|].
  cbn [from_dict]. unfold get_or. rewrite to_dict_no_definitions. cbn [bind].
  rewrite (resolve_ref_free _ (to_dict_ref_free _ Hwf)) by lia. cbn [bind].
  rewrite to_dict_description. cbn [bind].
  rewrite (to_dict_type _ _ Ht). cbn [bind].
  rewrite to_dict_get_default. cbn [bind truthy].
  apply String.eqb_neq in Hne. rewrite Hne. cbn [negb literal_eval_value].
  rewrite Hlit. cbn [bind].
  rewrite (to_dict_enum_absent _ _ Henum). cbn [bind].
  rewrite to_dict_items. cbn [bind].
  rewrite value_eqb_Type_object.
  rewrite (to_dict_additional_absent _ _ Hap).
  rewrite to_dict_minimum, to_dict_maximum, to_dict_minItems, to_dict_maxItems.
  unfold type_is. rewrite Ht. rewrite Henum.
  rewrite validate_of_opt_str, validate_Type_value.
  assert (Hfinal :
            forall (a b : JSONSchema), a = b -> @Ok JSONSchema a = Ok b)
    by (intros; subst; reflexivity).
  destruct t.
  3: { (* object *)
    destruct (well_formed_object _ Hwf Ht) as (Hi & Hmx & Hmi & Hma & Hps).
    rewrite Hi. cbn - [parse_properties_with decoded].
    unfold parse_properties_with.
    rewrite to_dict_properties, to_dict_required. unfold type_is. rewrite Ht.
    cbn [Type_eqb Type_value String.eqb Ascii.eqb Bool.eqb].
    destruct (properties n) as [[|np ps]|] eqn:Ep.
    - cbn. apply Hfinal. destruct n; cbn in *; subst; reflexivity.
    - destruct (Hps _ eq_refl) as (Hnd & _ & Hall).
      rewrite decode_children.
      + cbn [bind]. rewrite (decode_required _ Hnd). cbn.
        apply Hfinal. destruct n; cbn in *; subst; reflexivity.
      + intros x Hx. rewrite Forall_forall in Hall.
        apply (IHps _ x eq_refl Hx (Hall x Hx)).
        pose proof (@to_dict_property_height n _ x Ht Ep Hx). lia.
    - cbn. apply Hfinal. destruct n; cbn in *; subst; reflexivity. }
  2: { (* array *)
    destruct (well_formed_array _ Hwf Ht) as (Hp & Hmx & Hi).
    cbn [Type_eqb Type_value String.eqb Ascii.eqb Bool.eqb orb bind].
    destruct (items n) as [i|] eqn:Ei.
    - rewrite to_dict_truthy.
      rewrite (IHi i eq_refl (Hi _ eq_refl)).
      + cbn [bind]. rewrite !validate_of_opt_int. cbn.
        apply Hfinal. destruct n; cbn in *; subst; reflexivity.
      + pose proof (@to_dict_items_height n i Ht Ei). lia.
    - cbn [truthy bind]. rewrite !validate_of_opt_int. cbn.
      apply Hfinal. destruct n; cbn in *; subst; reflexivity. }
  all: destruct (well_formed_scalar _ Hwf Ht ltac:(discriminate)
                   ltac:(discriminate)) as (Hi & Hp & Hmi & Hma);
    cbn [Type_eqb Type_value String.eqb Ascii.eqb Bool.eqb orb bind truthy];
    rewrite validate_number_of_opt_int; cbn;
    apply Hfinal; destruct n; cbn in *; subst; reflexivity.
Qed.

Lemma decoded_equivalent n : well_formed n -> equivalent n (decoded n).
Proof.
  induction n as [n IHi IHps] using JSONSchema_children_ind. intros Hwf.
  destruct (well_formed_common _ Hwf) as (_ & Henum & Hap & t & Ht).
  assert (Hitems : option_rel equivalent (items n) (items (decoded n))).
  { destruct (items n) as [i|] eqn:Ei.
    - assert (Hi : well_formed i).
      { destruct t;
          try (destruct (well_formed_scalar _ Hwf Ht ltac:(discriminate)
                           ltac:(discriminate)) as (Hi & _); congruence).
        - destruct (well_formed_array _ Hwf Ht) as (_ & _ & Hi). auto.
        - destruct (well_formed_object _ Hwf Ht) as (Hi & _). congruence. }
      specialize (IHi i eq_refl Hi).
      destruct n; cbn in *; subst. constructor. exact IHi.
    - destruct n; cbn in *; subst. constructor. }
  assert (Hprops :
            Forall2 (fun np np' =>
                       fst np = fst np'
                       /\ required (snd np) = required (snd np')
                       /\ equivalent (snd np) (snd np'))
                    (properties_of n) (properties_of (decoded n))).
  { unfold properties_of. destruct t;
      try (destruct (well_formed_scalar _ Hwf Ht ltac:(discriminate)
                       ltac:(discriminate)) as (_ & Hp & _);
           destruct n; cbn in *; subst; constructor).
    - destruct (well_formed_array _ Hwf Ht) as (Hp & _).
      destruct n; cbn in *; subst; constructor.
    - destruct (well_formed_object _ Hwf Ht) as (_ & _ & _ & _ & Hps).
      destruct (properties n) as [ps|] eqn:Ep.
      + destruct (Hps _ eq_refl) as (_ & _ & Hall).
        rewrite Forall_forall in Hall.
        assert (Hch : forall np, In np ps -> equivalent (snd np) (decoded (snd np))).
        { intros np Hnp. apply (IHps ps np eq_refl Hnp). auto. }
        destruct n; cbn in *; subst. cbn.
        rewrite <- (map_id ps) at 1. apply Forall2_map_same.
        intros np Hnp. cbn.
        split; [reflexivity | split; [reflexivity|]].
        apply equivalent_set_required. apply Hch; assumption.
      + destruct n; cbn in *; subst; constructor. }
  destruct n; cbn in *; subst.
  constructor; cbn; try reflexivity; try assumption. constructor.
Qed.

(** C1, for well-formed nodes.  A well-formed node (every node of the tree
    has a kind, no [enum], no [additional_properties], [items] and item
    bounds on arrays only, [properties] on objects only with unique names
    other than [$ref], literal defaults) is decoded back from its encoding,
    for every sufficient depth of recursion, to a node equivalent to it. *)
Theorem roundtrip_well_formed :
  forall n,
    well_formed n ->
    exists n',
      (forall fuel,
          height (VDict (to_dict repr n)) + 2 <= fuel ->
          from_dict literal_eval fuel (VDict (to_dict repr n)) = Ok n')
      /\ equivalent n n'.
Proof.
  intros n Hwf. exists (decoded n). split.
  - intros fuel Hfuel. apply decode_encode; assumption.
  - apply decoded_equivalent; assumption.
Qed.

End RoundTrip.

Lemma roundtrip_node_well_formed :
  well_formed repr_lit literal_eval_lit roundtrip_node.
Proof.
  cbn. unfold literal_ok.
  repeat match goal with
         | |- _ /\ _ => split
         | |- NoDup _ => constructor
         | |- ~ _ => simpl; intuition discriminate
         | |- _ <> _ => discriminate
         | |- _ = _ => reflexivity
         | |- True => exact I
         end.
Qed.

Lemma roundtrip_well_formed_witness :
  well_formed repr_lit literal_eval_lit roundtrip_node
  /\ exists n',
      (forall fuel,
          height (VDict (to_dict repr_lit roundtrip_node)) + 2 <= fuel ->
          from_dict literal_eval_lit fuel
            (VDict (to_dict repr_lit roundtrip_node)) = Ok n')
      /\ equivalent roundtrip_node n'.
Proof.
  split.
  - exact roundtrip_node_well_formed.
  - apply (@roundtrip_well_formed repr_lit literal_eval_lit roundtrip_node).
    exact roundtrip_node_well_formed.
Defined.

Example roundtrip_node_decoded :
  from_dict literal_eval_lit 8 (VDict (to_dict repr_lit roundtrip_node))
  = Ok (mkJSONSchema (Some "a person") (Some OBJECT) None false VNone None
          (Some [ ("name",
                   mkJSONSchema (Some "full name") (Some STRING) None true
                                (VStr "x") None None None None None None None);
                  ("age",
                   mkJSONSchema None (Some INTEGER) None false VNone None None
                                None None (Some 150%Z) None None);
                  ("tags",
                   mkJSONSchema None (Some ARRAY) None false VNone
                                (Some (mkJSONSchema None (Some STRING) None
                                         false VNone None None None None None
                                         None None))
                                None None None None (Some 1%Z) None) ])
          None None None None None).
Proof. reflexivity. Qed.

(** A node without a kind, without [enum] and without
    [additional_properties], is encoded without [type], and is not decoded
    back: at no depth of recursion does [from_dict] return a node. *)
Lemma roundtrip_untyped_counterexample :
  enum JSONSchema_default = None
  /\ additional_properties JSONSchema_default = None
  /\ to_dict repr_lit JSONSchema_default = [("default", VStr "None")]
  /\ ~ (exists fuel n',
           from_dict literal_eval_lit fuel
             (VDict (to_dict repr_lit JSONSchema_default)) = Ok n').
Proof.
  repeat split. intros (fuel & n' & H).
  destruct fuel as [|[|[|fuel]]]; cbn in H; discriminate H.
Qed.

(** The lower bound is written under [minumum] and read from [minimum]. *)
Example minimum_not_decoded :
  from_dict literal_eval_lit 4
    (VDict (to_dict repr_lit
              (mkJSONSchema None (Some INTEGER) None false VNone None None
                            None (Some 0%Z) (Some 9%Z) None None)))
  = Ok (mkJSONSchema None (Some INTEGER) None false VNone None None
                     None None (Some 9%Z) None None).
Proof. reflexivity. Qed.

(** ** Decoding: the kind of a node and the required flags *)

Lemma map_values_keys {A B : Type} (f : A -> result B) d d' :
  map_values f d = Ok d' -> map fst d' = map fst d.
Proof.
  unfold map_values. revert d'. induction d as [|[k v] d IH]; intros d' H;
    simpl in H.
  - injection H as <-. reflexivity.
  - step H as kv Hkv. step H as rest Hrest. injection H as <-.
    step Hkv as v' Hv'. injection Hkv as <-. simpl.
    rewrite (IH _ Hrest). reflexivity.
Qed.

Lemma dict_get_keys {A B : Type} (k : string) (d : list (string * A))
    (d' : list (string * B)) :
  map fst d' = map fst d -> dict_get k d = None -> dict_get k d' = None.
Proof.
  revert d'. induction d as [|[k1 v1] d IH]; intros [|[k2 v2] d'] Hk H;
    try discriminate; try reflexivity.
  simpl in *. injection Hk as -> Hk.
  destruct (String.eqb k k1); [discriminate|]. apply IH; assumption.
Qed.

Lemma validate_opt_Type_object t ty :
  validate_opt_Type t = Ok ty ->
  (value_eqb t (VStr "object") = true <-> ty = Some OBJECT).
Proof.
  destruct t as [| | |s| |]; simpl; try discriminate.
  - intros [= <-]. split; discriminate.
  - destruct (Type_of_value s) as [t|] eqn:Et; [|discriminate].
    intros [= <-]. unfold Type_of_value in Et. apply find_some in Et.
    destruct Et as (_ & Es). apply String.eqb_eq in Es. subst s.
    destruct t; simpl; split; intros H; try discriminate; reflexivity.
Qed.

Lemma map_values_get {A B : Type} (f : A -> result B) d d' k v :
  map_values f d = Ok d' ->
  dict_get k d = Some v ->
  exists v', dict_get k d' = Some v' /\ f v = Ok v'.
Proof.
  unfold map_values. revert d'.
  induction d as [|[k1 v1] d IH]; intros d' H Hk; simpl in *; [discriminate|].
  step H as kv Hkv. step H as rest Hrest. injection H as <-.
  step Hkv as v1' Hv1. injection Hkv as <-. simpl.
  destruct (String.eqb k k1).
  - injection Hk as <-. exists v1'. split; [reflexivity | assumption].
  - apply IH; assumption.
Qed.


Lemma Type_value_inj t t' : Type_value t = Type_value t' -> t = t'.
Proof. destruct t, t'; simpl; intros H; try reflexivity; discriminate. Qed.

(** A list of scalars resolves to itself. *)
Lemma resolve_scalar_list fuel req definitions r :
  Forall scalar req ->
  _resolve_type_refs_in_schema fuel (VList req) definitions = Ok r ->
  r = VList req.
Proof.
  intros Hs H. eapply resolve_deterministic; [exact H|].
  apply (@resolve_ref_free definitions (VList req)) with
    (fuel := S (height (VList req))); [|lia].
  apply ref_free_sequence. eapply Forall_impl; [|exact Hs].
  intros v Hv. apply ref_free_scalar; assumption.
Qed.

(** The names of the properties that [parse_properties] returns. *)
Lemma parse_properties_keys (literal_eval : string -> result value)
    (fuel : nat) (schema_node : dict) (props : list (string * JSONSchema)) :
  parse_properties literal_eval fuel schema_node = Ok props ->
  map fst props
  = match dict_get "properties" schema_node with
    | Some (VDict ps) => map fst ps
    | _ => []
    end.
Proof.
  intros H.
  unfold parse_properties, parse_properties_with in H.
  step H as decoded_ Hdec.
  assert (Hkeys : map fst decoded_
                  = match dict_get "properties" schema_node with
                    | Some (VDict ps) => map fst ps
                    | _ => []
                    end).
  { destruct (dict_get "properties" schema_node) as [[| | | | |ps]|];
      try discriminate.
    - eapply map_values_keys; eassumption.
    - injection Hdec as <-. reflexivity. }
  rewrite <- Hkeys. clear Hkeys Hdec.
  destruct (dict_get "required" schema_node) as [req|].
  - revert props H. induction decoded_ as [|[k v] l IH]; intros props H;
      simpl in H.
    + injection H as <-. reflexivity.
    + step H as kv Hkv. step H as rest Hrest. injection H as <-.
      step Hkv as b Hb. injection Hkv as <-. simpl.
      rewrite (IH _ Hrest). reflexivity.
  - injection H as <-. reflexivity.
Qed.

Section DecodingKind.

Variable literal_eval : string -> result value.




End DecodingKind.



(** C7. In the node that [from_dict] returns for an object document, the
    properties have the names of the document's [properties], in the same
    order, and the [required] flag of the property named [k] says whether
    [k] is a member of the document's [required] list; when the document has
    no [required] key, every flag is false.  The document is the argument
    with its references resolved; when the argument is a mapping without a
    [$ref] of its own, its [required] list of strings is the list of the
    resolved document, and [required] is absent from both or from none. *)
Theorem from_dict_required_flags :
  forall (literal_eval : string -> result value) (fuel : nat)
         (schema : value) (n : JSONSchema) (node : dict),
    from_dict literal_eval fuel schema = Ok n ->
    type n = Some OBJECT ->
    resolved_document schema node ->
    exists props,
      properties n = Some props
      /\ map fst props
         = match dict_get "properties" node with
           | Some (VDict ps) => map fst ps
           | _ => []
           end
      /\ (forall k v,
            In (k, v) props ->
            (forall req,
                dict_get "required" node = Some (VList req) ->
                (required v = true <-> In (VStr k) req))
            /\ (dict_get "required" node = None -> required v = false))
      /\ (forall d,
            schema = VDict d ->
            dict_get "$ref" d = None ->
            (dict_get "required" d = None -> dict_get "required" node = None)
            /\ (forall req,
                  dict_get "required" d = Some (VList req) ->
                  Forall scalar req ->
                  dict_get "required" node = Some (VList req))).
Proof.
  intros literal_eval fuel schema n node H Hty
         (definitions & fuel0 & Hdefs & Hres0).
  destruct fuel as [|fuel]; [discriminate|]. cbn [from_dict] in H.
  rewrite Hdefs in H. cbn [bind] in H. step H as resolved Hres.
  assert (resolved = VDict node)
    by (eapply resolve_deterministic; eassumption).
  subst resolved.
  step H as description_ Hdesc. step H as type_ Htype.
  do 5 (apply bind_ok in H; destruct H as (? & _ & H)).
  step H as properties_ Hprops.
  do 6 (apply bind_ok in H; destruct H as (? & _ & H)).
  step H as ty Hvty.
  do 5 (apply bind_ok in H; destruct H as (? & _ & H)).
  injection H as <-. cbn [type properties] in *. subst ty.
  assert (E : value_eqb type_ (VStr "object") = true)
    by (apply (validate_opt_Type_object _ Hvty); reflexivity).
  rewrite E in Hprops. step Hprops as ps Hps. injection Hprops as <-.
  exists ps. split; [reflexivity|]. split; [|split].
  - exact (@parse_properties_keys literal_eval fuel node ps Hps).
  - intros k v Hin.
    exact (@parse_properties_flags literal_eval fuel node ps Hps k v Hin).
  - intros d -> Href.
    destruct fuel0 as [|fuel0]; [discriminate|].
    rewrite (resolve_mapping_eq fuel0 d definitions Href) in Hres0.
    step Hres0 as d' Hd'. injection Hres0 as <-. split.
    + intros Hnone.
      exact (dict_get_keys "required" d d' (map_values_keys _ _ Hd') Hnone).
    + intros req Hreq Hsc.
      destruct (map_values_get _ _ _ Hd' Hreq) as (v' & Hv' & Hr).
      apply resolve_scalar_list in Hr; [|assumption]. subst v'. exact Hv'.
Qed.

Lemma from_dict_required_flags_witness :
  (exists props,
      properties required_example_node = Some props
      /\ map fst props
         = match dict_get "properties" required_example with
           | Some (VDict ps) => map fst ps
           | _ => []
           end
      /\ (forall k v,
            In (k, v) props ->
            (forall req,
                dict_get "required" required_example = Some (VList req) ->
                (required v = true <-> In (VStr k) req))
            /\ (dict_get "required" required_example = None ->
                required v = false))
      /\ (forall d,
            VDict required_example = VDict d ->
            dict_get "$ref" d = None ->
            (dict_get "required" d = None ->
             dict_get "required" required_example = None)
            /\ (forall req,
                  dict_get "required" d = Some (VList req) ->
                  Forall scalar req ->
                  dict_get "required" required_example = Some (VList req))))
  /\ (exists props,
        properties optional_example_node = Some props
        /\ map fst props
           = match dict_get "properties" optional_example with
             | Some (VDict ps) => map fst ps
             | _ => []
             end
        /\ (forall k v,
              In (k, v) props ->
              (forall req,
                  dict_get "required" optional_example = Some (VList req) ->
                  (required v = true <-> In (VStr k) req))
              /\ (dict_get "required" optional_example = None ->
                  required v = false))
        /\ (forall d,
              VDict optional_example = VDict d ->
              dict_get "$ref" d = None ->
              (dict_get "required" d = None ->
               dict_get "required" optional_example = None)
              /\ (forall req,
                    dict_get "required" d = Some (VList req) ->
                    Forall scalar req ->
                    dict_get "required" optional_example
                    = Some (VList req)))).
Proof.
  split.
  - apply (@from_dict_required_flags literal_eval_lit 6
             (VDict required_example) required_example_node
             required_example).
    + reflexivity.
    + reflexivity.
    + exists (VDict []), 4. split; reflexivity.
  - apply (@from_dict_required_flags literal_eval_lit 6
             (VDict optional_example) optional_example_node
             optional_example).
    + reflexivity.
    + reflexivity.
    + exists (VDict []), 4. split; reflexivity.
Defined.

(** * The resolver over the heap: frame and agreement *)

Module HeapTheory.

Import Heap.

Lemma extends_refl h : extends h h.
Proof. exists []. symmetry. apply app_nil_r. Qed.

Lemma extends_trans h1 h2 h3 : extends h1 h2 -> extends h2 h3 -> extends h1 h3.
Proof.
  intros [a ->] [b ->]. exists (a ++ b)%list. symmetry. apply app_assoc.
Qed.

Lemma extends_length h h' : extends h h' -> List.length h <= List.length h'.
Proof. intros [a ->]. rewrite length_app. lia. Qed.

Lemma lookup_extends h h' l o :
  extends h h' -> lookup h l = Some o -> lookup h' l = Some o.
Proof.
  intros [a ->] H. unfold lookup in *.
  rewrite nth_error_app1; [assumption|].
  apply nth_error_Some. congruence.
Qed.

Lemma alloc_extends o h : extends h (snd (alloc o h)).
Proof. exists [o]. reflexivity. Qed.

Lemma lookup_alloc o h : lookup (snd (alloc o h)) (List.length h) = Some o.
Proof.
  unfold lookup, alloc. simpl. rewrite nth_error_app2 by lia.
  rewrite Nat.sub_diag. reflexivity.
Qed.

Section fresh_induction.

Variables (n : nat) (h : heap) (P : ref -> Prop).
Hypothesis Hscalar :
  forall r, match r with RObj _ => False | _ => True end -> P r.
Hypothesis Hobject :
  forall l o,
    n <= l -> lookup h l = Some o -> Forall (fresh n h) (children o) ->
    Forall P (children o) -> P (RObj l).

Fixpoint fresh_ind' (r : ref) (H : fresh n h r) {struct H} : P r :=
  match H in fresh _ _ r return P r with
  | @fresh_scalar _ _ r Hr => @Hscalar r Hr
  | @fresh_object _ _ l o Hl Ho Hc =>
      @Hobject l o Hl Ho Hc
        ((fix go (rs : list ref) (Hrs : Forall (fresh n h) rs) : Forall P rs :=
            match Hrs with
            | Forall_nil _ => Forall_nil _
            | @Forall_cons _ _ x xs Hx Hxs =>
                Forall_cons x (@fresh_ind' x Hx) (go xs Hxs)
            end) (children o) Hc)
  end.

End fresh_induction.

Lemma fresh_mono n h r :
  fresh n h r ->
  forall n' h', n' <= n -> extends h h' -> fresh n' h' r.
Proof.
  intros H. induction H as [r Hr|l o Hl Ho _ IH] using fresh_ind';
    intros n' h' Hn Hext.
  - apply fresh_scalar; assumption.
  - apply (@fresh_object n' h' l o); [lia | |].
    + eapply lookup_extends; eassumption.
    + eapply Forall_impl; [|exact IH]. intros r Hr. apply Hr; assumption.
Qed.

(** A sequence of calls, each of which only adds objects and returns
    something built from objects it added, only adds objects, and everything
    it returns is built from objects it added. *)
Lemma mapM_frame {A B : Type} (f : A -> heap -> result (B * heap))
    (proj : B -> ref) (l : list A) :
  (forall x h y h',
      In x l -> f x h = Ok (y, h') ->
      extends h h' /\ fresh (List.length h) h' (proj y)) ->
  forall h ys h',
    mapM_heap f l h = Ok (ys, h') ->
    extends h h' /\ Forall (fun y => fresh (List.length h) h' (proj y)) ys.
Proof.
  induction l as [|x xs IH]; intros Hf h ys h' H; simpl in H.
  - injection H as <- <-. split; [apply extends_refl | constructor].
  - step H as yh Hy. step H as ysh Hys. injection H as <- <-.
    destruct yh as [y h1], ysh as [ys h2]. simpl in *.
    destruct (Hf x h y h1 (or_introl eq_refl) Hy) as (He1 & Hy1).
    destruct (IH (fun x' h0 y' h0' Hin => Hf x' h0 y' h0' (or_intror Hin))
                 h1 ys h2 Hys) as (He2 & Hys2).
    split; [eapply extends_trans; eassumption|].
    constructor.
    + eapply fresh_mono; [exact Hy1 | lia | exact He2].
    + eapply Forall_impl; [|exact Hys2]. intros y' Hy'.
      eapply fresh_mono; [exact Hy' | | apply extends_refl].
      apply extends_length; assumption.
Qed.

Lemma resolve_frame (fuel : nat) :
  forall schema definitions h r h',
    _resolve_type_refs_in_schema fuel schema definitions h = Ok (r, h') ->
    extends h h' /\ fresh (List.length h) h' r.
Proof.
  induction fuel as [|fuel IH]; intros schema defs h r h' H; [discriminate|].
  simpl in H.
  destruct schema as [| | | |l];
    try (injection H as <- <-; split;
         [apply extends_refl | apply fresh_scalar; exact I]).
  destruct (lookup h l) as [[entries|elements]|] eqn:El; [| |discriminate].
  - destruct (dict_get "$ref" entries) as [p|].
    + step H as ref_path Hp. step H as ref_value Hv. eapply IH; eassumption.
    + step H as eh He. destruct eh as [es h1]. simpl in H.
      injection H as <- <-.
      apply (mapM_frame _ snd) in He.
      * destruct He as (Hext & Hes). split.
        -- eapply extends_trans; [exact Hext | apply alloc_extends].
        -- apply (@fresh_object _ _ _ (ODict es)).
           ++ apply extends_length; assumption.
           ++ apply lookup_alloc.
           ++ simpl. apply Forall_map. eapply Forall_impl; [|exact Hes].
              intros e Hfresh.
              eapply fresh_mono; [exact Hfresh | lia | apply alloc_extends].
      * intros [k v] h0 [k' v'] h0' _ Hkv. simpl in Hkv.
        step Hkv as vh Hvh. destruct vh as [v0 h2]. injection Hkv as <- <- <-.
        simpl. eapply IH; eassumption.
  - step H as eh He. destruct eh as [es h1]. simpl in H.
    injection H as <- <-.
    apply (mapM_frame _ (fun r => r)) in He.
    + destruct He as (Hext & Hes). split.
      * eapply extends_trans; [exact Hext | apply alloc_extends].
      * apply (@fresh_object _ _ _ (OList es)).
        -- apply extends_length; assumption.
        -- apply lookup_alloc.
        -- simpl. eapply Forall_impl; [|exact Hes].
           intros e Hfresh.
           eapply fresh_mono; [exact Hfresh | lia | apply alloc_extends].
    + intros x h0 y h0' _ Hxy. eapply IH; eassumption.
Qed.

Lemma Forall2_impl_Forall {A B : Type} (P : B -> Prop) (R R' : A -> B -> Prop)
    (l : list A) (l' : list B) :
  Forall P l' -> Forall2 R l l' ->
  (forall x y, P y -> R x y -> R' x y) -> Forall2 R' l l'.
Proof.
  intros HP HR Himp. induction HR as [|x y l l' Hxy _ IH]; constructor.
  - inversion HP; subst. apply Himp; assumption.
  - inversion HP; subst. apply IH; assumption.
Qed.

(** What a reference stands for does not change when objects are added. *)
Lemma represents_extends h h' :
  extends h h' ->
  forall v r, represents h r v -> represents h' r v.
Proof.
  intros Hext v.
  induction v as [| | | |vs IH|d IH] using value_ind'; intros r H;
    inversion H; subst; try constructor.
  - apply (@represents_List h' l elements vs).
    + eapply lookup_extends; eassumption.
    + eapply Forall2_impl_Forall; [exact IH | eassumption |].
      intros x y Hy Hxy. apply Hy; assumption.
  - apply (@represents_Dict h' l entries d).
    + eapply lookup_extends; eassumption.
    + eapply Forall2_impl_Forall; [exact IH | eassumption |].
      intros x y Hy [Hk Hxy]. split; [assumption | apply Hy; assumption].
Qed.

(** C10. A call of the resolver that returns leaves every object of the heap
    it was called in as it was: whatever the document and the definitions
    table stood for before the call, they stand for after it; and every dict
    and list that can be reached from the result was allocated by the call. *)
Theorem resolve_type_refs_frame :
  forall fuel schema definitions h r h',
    _resolve_type_refs_in_schema fuel schema definitions h = Ok (r, h') ->
    (forall l o, lookup h l = Some o -> lookup h' l = Some o)
    /\ (forall v, represents h schema v -> represents h' schema v)
    /\ (forall v, represents h definitions v -> represents h' definitions v)
    /\ fresh (List.length h) h' r.
Proof.
  intros fuel schema definitions h r h' H.
  destruct (resolve_frame _ _ _ _ H) as (Hext & Hfresh).
  repeat split.
  - intros l o. apply lookup_extends; assumption.
  - intros v. apply represents_extends; assumption.
  - intros v. apply represents_extends; assumption.
  - exact Hfresh.
Qed.

(** ** Agreement with the resolver on documents *)

Lemma dict_get_represents h k entries d :
  Forall2 (fun e kv => fst e = fst kv /\ represents h (snd e) (snd kv))
          entries d ->
  match dict_get k entries, dict_get k d with
  | Some r, Some v => represents h r v
  | None, None => True
  | _, _ => False
  end.
Proof.
  induction 1 as [|[k1 r] [k2 v] entries d [Hk Hr] _ IH]; simpl; [exact I|].
  simpl in Hk. subst k2. destruct (String.eqb k k1); assumption.
Qed.

Lemma subscript_represents h r v key r' :
  represents h r v ->
  subscript h r key = Ok r' ->
  exists v', Doc.subscript v key = Ok v' /\ represents h r' v'.
Proof.
  intros Hr H. destruct Hr as [| | | |l elements vs Hl _|l entries d Hl Hd];
    simpl in H; try discriminate.
  - rewrite Hl in H. discriminate.
  - rewrite Hl in H. pose proof (dict_get_represents key Hd) as Hg.
    unfold Doc.subscript. simpl.
    destruct (dict_get key entries) as [x|], (dict_get key d) as [y|];
      try contradiction; try discriminate.
    injection H as <-. exists y. split; [reflexivity | assumption].
Qed.

Lemma follow_path_represents h ref_path :
  forall r v r',
    represents h r v ->
    follow_path h ref_path r = Ok r' ->
    exists v', Doc.follow_path ref_path v = Ok v' /\ represents h r' v'.
Proof.
  induction ref_path as [|key rest IH]; intros r v r' Hr H; simpl in H.
  - injection H as <-. exists v. split; [reflexivity | assumption].
  - step H as x Hx.
    destruct (subscript_represents key Hr Hx) as (y & Hy & Hxy).
    destruct (IH _ _ _ Hxy H) as (v' & Hv' & Hr').
    exists v'. split; [|assumption].
    unfold Doc.follow_path in *. simpl. unfold Doc.subscript in Hy.
    rewrite Hy. exact Hv'.
Qed.

(** A run over the heap is a run over the documents that the references
    stand for: when the heap resolver returns, the resolver on documents
    returns, with the same fuel, the document that the result stands for. *)
Lemma resolve_represents (fuel : nat) :
  forall schema definitions h r h' vs vd,
    represents h schema vs ->
    represents h definitions vd ->
    _resolve_type_refs_in_schema fuel schema definitions h = Ok (r, h') ->
    exists vr,
      Doc.resolve fuel vs vd = Ok vr /\ represents h' r vr.
Proof.
  unfold Doc.resolve.
  induction fuel as [|fuel IH]; intros schema defs h r h' vs vd Hs Hd H;
    [discriminate|].
  simpl in H.
  destruct Hs as [| | | |l elements vs Hl Hel|l entries d Hl Hen];
    try (injection H as <- <-; eexists; split; [reflexivity | constructor]).
  - (* list *)
    rewrite Hl in H. step H as eh He. destruct eh as [es h1]. simpl in H.
    injection H as <- <-.
    assert (Hlist :
              forall h0 es h1,
                extends h h0 ->
                mapM_heap (fun item h =>
                             _resolve_type_refs_in_schema fuel item defs h)
                          elements h0 = Ok (es, h1) ->
                exists vs',
                  mapM (fun item => Doc.resolve fuel item vd) vs = Ok vs'
                  /\ Forall2 (represents h1) es vs' /\ extends h0 h1).
    { clear Hl He. 
      induction Hel as [|x y xs ys Hxy _ IHl]; intros h0 es0 h1' Hext0 He;
        simpl in He.
      - injection He as <- <-. exists []. repeat split; try constructor.
        apply extends_refl.
      - step He as yh Hy. step He as ysh Hys. injection He as <- <-.
        destruct yh as [y' h2], ysh as [ys' h3]. simpl in *.
        destruct (IH x defs h0 y' h2 y vd) as (vy & Hvy & Hry).
        + eapply represents_extends; eassumption.
        + eapply represents_extends; eassumption.
        + exact Hy.
        + destruct (resolve_frame _ _ _ _ Hy) as (He2 & _).
          destruct (IHl h2 ys' h3) as (vs' & Hvs' & Hrs & He3).
          * eapply extends_trans; eassumption.
          * exact Hys.
          * exists (vy :: vs'). unfold Doc.resolve in *.
            rewrite Hvy. simpl. rewrite Hvs'. simpl.
            repeat split.
            -- constructor; [|assumption].
               eapply represents_extends; eassumption.
            -- eapply extends_trans; eassumption. }
    destruct (Hlist h es h1 (extends_refl h) He) as (vs' & Hvs' & Hrs & Hext).
    exists (VList vs'). unfold Doc.resolve in Hvs'.
    rewrite resolve_sequence_eq, Hvs'. split; [reflexivity|].
    apply (@represents_List _ _ es vs'); [apply lookup_alloc|].
    eapply Forall2_impl; [|exact Hrs].
    intros a b Hab. eapply represents_extends; [apply alloc_extends | exact Hab].
  - (* dict *)
    rewrite Hl in H. pose proof (dict_get_represents "$ref" Hen) as Hg.
    destruct (dict_get "$ref" entries) as [p|] eqn:Ep,
             (dict_get "$ref" d) as [vp|] eqn:Evp;
      try contradiction.
    + step H as ref_path Hp. step H as ref_value Hv.
      destruct p; try discriminate.
      assert (Hp' : ref_path = skipn 2 (split "/" s))
        by (unfold ref_path_of in Hp; congruence).
      clear Hp. subst ref_path. inversion Hg; subst.
      destruct (follow_path_represents _ Hd Hv) as (vf & Hvf & Hrf).
      unfold Doc.follow_path in Hvf.
      rewrite (resolve_ref_eq fuel d vd Evp), Hvf. simpl.
      eapply IH; eassumption.
    + step H as eh He. destruct eh as [es h1]. simpl in H.
      injection H as <- <-.
      assert (Hdict :
                forall h0 es h1,
                  extends h h0 ->
                  mapM_heap (fun kv h =>
                               vh <- _resolve_type_refs_in_schema fuel
                                       (snd kv) defs h ;;
                               Ok ((fst kv, fst vh), snd vh))
                            entries h0 = Ok (es, h1) ->
                  exists d',
                    map_values (fun v => Doc.resolve fuel v vd) d = Ok d'
                    /\ Forall2 (fun e kv =>
                                  fst e = fst kv
                                  /\ represents h1 (snd e) (snd kv)) es d'
                    /\ extends h0 h1).
      { clear Hl Hg He Ep Evp. unfold map_values.
        induction Hen as [|x y xs ys [Hk Hxy] _ IHl];
          intros h0 es0 h1' Hext0 He; simpl in He.
        - injection He as <- <-. exists []. repeat split; try constructor.
          apply extends_refl.
        - step He as yh Hy. step He as ysh Hys. injection He as <- <-.
          destruct yh as [y' h2], ysh as [ys' h3]. simpl in *.
          step Hy as vh Hvh. destruct vh as [v0 h4]. injection Hy as <- <-.
          simpl in *.
          destruct (IH (snd x) defs h0 v0 h4 (snd y) vd) as (vy & Hvy & Hry).
          + eapply represents_extends; eassumption.
          + eapply represents_extends; eassumption.
          + exact Hvh.
          + destruct (resolve_frame _ _ _ _ Hvh) as (He2 & _).
            destruct (IHl h4 ys' h3) as (d' & Hd' & Hrs & He3).
            * eapply extends_trans; eassumption.
            * exact Hys.
            * exists ((fst y, vy) :: d'). unfold Doc.resolve in *.
              rewrite Hvy. simpl. rewrite Hd'. simpl.
              repeat split.
              -- constructor; [|assumption]. simpl. split; [assumption|].
                 eapply represents_extends; eassumption.
              -- eapply extends_trans; eassumption. }
      destruct (Hdict h es h1 (extends_refl h) He) as (d' & Hd' & Hrs & Hext).
      exists (VDict d'). unfold Doc.resolve in Hd'.
      rewrite (resolve_mapping_eq fuel d vd Evp), Hd'. split; [reflexivity|].
      apply (@represents_Dict _ _ es d'); [apply lookup_alloc|].
      eapply Forall2_impl; [|exact Hrs].
      intros a b [Hab1 Hab2]. split; [assumption|].
      eapply represents_extends; [apply alloc_extends | exact Hab2].
Qed.

Example resolve_example_heap :
  _resolve_type_refs_in_schema 4 (RObj 3) (RObj 0) example_heap
  = Ok (RObj 5,
        (example_heap
           ++ [ODict [("type", RStr "string")]; OList [RObj 4; RInt 1]])%list).
Proof. reflexivity. Qed.

Lemma resolve_type_refs_frame_witness :
  (forall l o,
      lookup example_heap l = Some o ->
      lookup (example_heap
                ++ [ODict [("type", RStr "string")]; OList [RObj 4; RInt 1]])%list
             l = Some o)
  /\ (forall v,
         represents example_heap (RObj 3) v ->
         represents
           (example_heap
              ++ [ODict [("type", RStr "string")]; OList [RObj 4; RInt 1]])%list
           (RObj 3) v)
  /\ (forall v,
         represents example_heap (RObj 0) v ->
         represents
           (example_heap
              ++ [ODict [("type", RStr "string")]; OList [RObj 4; RInt 1]])%list
           (RObj 0) v)
  /\ fresh (List.length example_heap)
           (example_heap
              ++ [ODict [("type", RStr "string")]; OList [RObj 4; RInt 1]])%list
           (RObj 5).
Proof.
  apply (@resolve_type_refs_frame 4 (RObj 3) (RObj 0) example_heap).
  reflexivity.
Defined.

End HeapTheory.

(** * Further properties *)

(** ** The resolver *)

Lemma resolve_ok_ref_free :
  forall fuel schema definitions r,
    _resolve_type_refs_in_schema fuel schema definitions = Ok r ->
    ref_free r.
Proof.
  induction fuel as [|fuel IH]; intros schema defs r H; [discriminate|].
  destruct schema as [| | | |l|d];
    try (rewrite resolve_scalar_eq in H by exact I; injection H as <-;
         apply ref_free_scalar; exact I).
  - rewrite resolve_sequence_eq in H. step H as l' Hl. injection H as <-.
    apply ref_free_sequence. apply mapM_ok_Forall2 in Hl.
    apply Forall_forall. intros y Hy.
    destruct (Forall2_In_r _ Hl Hy) as (x & _ & Hx). eapply IH; eassumption.
  - destruct (dict_get "$ref" d) as [p|] eqn:Ep.
    + cbn [_resolve_type_refs_in_schema] in H. rewrite Ep in H.
      step H as ref_path Hp. step H as ref_value Hv. eapply IH; eassumption.
    + rewrite (resolve_mapping_eq fuel d defs Ep) in H.
      step H as d' Hd. injection H as <-.
      apply mapM_ok_Forall2 in Hd. apply ref_free_mapping.
      * apply dict_get_not_In. intros Hin. apply in_map_iff in Hin.
        destruct Hin as ([k v] & Hk & Hkv). simpl in Hk. subst k.
        destruct (Forall2_In_r _ Hd Hkv) as ([k0 v0] & Hin0 & Hx).
        simpl in Hx. step Hx as v1 Hv1. injection Hx as -> _.
        apply (in_map fst) in Hin0. simpl in Hin0.
        assert (Hnone : forall (A : Type) k (dd : list (string * A)),
                   dict_get k dd = None -> ~ In k (map fst dd)).
        { intros A k dd. induction dd as [|[k' v'] dd IHd]; simpl; [tauto|].
          destruct (String.eqb k k') eqn:E; [discriminate|].
          apply String.eqb_neq in E. intros Hn [Heq|Hin']; [congruence|].
          apply IHd; assumption. }
        exact (Hnone _ _ _ Ep Hin0).
      * apply Forall_forall. intros [k v] Hkv.
        destruct (Forall2_In_r _ Hd Hkv) as ([k0 v0] & _ & Hx).
        simpl in Hx. step Hx as v1 Hv1. injection Hx as _ <-.
        simpl. eapply IH; eassumption.
Qed.

(** X1. A document that the resolver returns holds no [$ref]: every
    reference has been replaced. *)
Theorem resolve_output_ref_free :
  forall fuel schema definitions r,
    _resolve_type_refs_in_schema fuel schema definitions = Ok r ->
    ref_free r.
Proof. exact resolve_ok_ref_free. Qed.

Lemma resolve_output_ref_free_witness :
  ref_free (VDict [("type", VStr "string")]).
Proof.
  apply (@resolve_output_ref_free 3
           (VDict [("$ref", VStr "#/definitions/Foo")])
           (VDict [("Foo", VDict [("type", VStr "string")])])).
  reflexivity.
Defined.

(** X2. Resolution is idempotent: resolving a resolved document again,
    against any definitions table, returns it unchanged. *)
Theorem resolve_idempotent :
  forall fuel schema definitions r,
    _resolve_type_refs_in_schema fuel schema definitions = Ok r ->
    forall definitions' fuel',
      height r < fuel' ->
      _resolve_type_refs_in_schema fuel' r definitions' = Ok r.
Proof.
  intros fuel schema definitions r H definitions' fuel' Hfuel.
  apply resolve_ref_free; [|assumption].
  eapply resolve_ok_ref_free; eassumption.
Qed.

Lemma resolve_idempotent_witness :
  _resolve_type_refs_in_schema 2 (VDict [("type", VStr "string")]) VNone
  = Ok (VDict [("type", VStr "string")]).
Proof.
  apply (@resolve_idempotent 3
           (VDict [("$ref", VStr "#/definitions/Foo")])
           (VDict [("Foo", VDict [("type", VStr "string")])])
           (VDict [("type", VStr "string")]) eq_refl VNone 2).
  simpl. lia.
Defined.

Lemma split_slash_free w : slash_free w = true -> split "/" w = [w].
Proof.
  induction w as [|c w IH]; simpl; intros H; [reflexivity|].
  apply andb_prop in H. destruct H as [Hc Hw].
  apply negb_true_iff in Hc. rewrite Hc, (IH Hw). reflexivity.
Qed.

Lemma split_segment w rest :
  slash_free w = true ->
  split "/" (w ++ String "/" rest) = w :: split "/" rest.
Proof.
  induction w as [|c w IH]; simpl; intros H; [reflexivity|].
  apply andb_prop in H. destruct H as [Hc Hw].
  apply negb_true_iff in Hc. rewrite Hc, (IH Hw). reflexivity.
Qed.

(** Splitting at [/] what was joined with [/] gives the segments back. *)
Lemma split_join segs :
  segs <> [] ->
  Forall (fun w => slash_free w = true) segs ->
  split "/" (join "/" segs) = segs.
Proof.
  unfold join. intros Hne H. induction H as [|w segs Hw Hsegs IH];
    [congruence|].
  destruct segs as [|w' segs].
  - simpl. apply split_slash_free; assumption.
  - change (String.concat "/" (w :: w' :: segs))
      with (w ++ String "/" (String.concat "/" (w' :: segs))).
    rewrite (@split_segment w _ Hw), IH by discriminate. reflexivity.
Qed.

(** X3. Only the segments after the second [/] of a pointer are followed,
    whatever the first two are: a pointer made of two segments and a path
    is resolved by following the path through the definitions table and
    resolving what is found there, and two pointers with the same segments
    after the second [/] resolve alike.  A pointer with fewer than three
    segments therefore stands for the whole definitions table, which is
    resolved in its place. *)
Theorem resolve_pointer_segments :
  forall fuel d pointer definitions,
    dict_get "$ref" d = Some (VStr pointer) ->
    (forall a b path,
        Forall (fun w => slash_free w = true) (a :: b :: path) ->
        pointer = join "/" (a :: b :: path) ->
        _resolve_type_refs_in_schema (S fuel) (VDict d) definitions
        = (fragment <- follow_path path definitions ;;
           _resolve_type_refs_in_schema fuel fragment definitions))
    /\ (forall d' pointer',
          dict_get "$ref" d' = Some (VStr pointer') ->
          skipn 2 (split "/" pointer) = skipn 2 (split "/" pointer') ->
          _resolve_type_refs_in_schema (S fuel) (VDict d) definitions
          = _resolve_type_refs_in_schema (S fuel) (VDict d') definitions)
    /\ (List.length (split "/" pointer) <= 2 ->
        _resolve_type_refs_in_schema (S fuel) (VDict d) definitions
        = _resolve_type_refs_in_schema fuel definitions definitions).
Proof.
  intros fuel d pointer definitions Hd. split; [|split].
  - intros a b path Hsegs ->.
    rewrite (resolve_ref_eq fuel d definitions Hd).
    rewrite (@split_join (a :: b :: path)) by (discriminate || assumption).
    reflexivity.
  - intros d' pointer' Hd' Hsame.
    rewrite (resolve_ref_eq fuel d definitions Hd).
    rewrite (resolve_ref_eq fuel d' definitions Hd').
    rewrite Hsame. reflexivity.
  - intros Hlen.
    rewrite (resolve_ref_eq fuel d definitions Hd).
    rewrite skipn_all2 by exact Hlen. reflexivity.
Qed.

Lemma resolve_pointer_segments_witness :
  _resolve_type_refs_in_schema 3 (VDict [("$ref", VStr "x/y/Foo")])
    (VDict [("Foo", VDict [("type", VStr "string")])])
  = (fragment <- follow_path ["Foo"]
                   (VDict [("Foo", VDict [("type", VStr "string")])]) ;;
     _resolve_type_refs_in_schema 2 fragment
       (VDict [("Foo", VDict [("type", VStr "string")])]))
  /\ _resolve_type_refs_in_schema 3 (VDict [("$ref", VStr "x/y/Foo")])
       (VDict [("Foo", VDict [("type", VStr "string")])])
     = _resolve_type_refs_in_schema 3
         (VDict [("$ref", VStr "#/definitions/Foo"); ("title", VStr "t")])
         (VDict [("Foo", VDict [("type", VStr "string")])])
  /\ _resolve_type_refs_in_schema 4 (VDict [("$ref", VStr "#")])
       (VDict [("Foo", VDict [("type", VStr "string")])])
     = _resolve_type_refs_in_schema 3
         (VDict [("Foo", VDict [("type", VStr "string")])])
         (VDict [("Foo", VDict [("type", VStr "string")])]).
Proof.
  split; [|split].
  - apply (proj1 (@resolve_pointer_segments 2 [("$ref", VStr "x/y/Foo")]
                    "x/y/Foo"
                    (VDict [("Foo", VDict [("type", VStr "string")])])
                    eq_refl)
             "x" "y" ["Foo"]).
    + repeat constructor.
    + reflexivity.
  - apply (proj1 (proj2 (@resolve_pointer_segments 2
                           [("$ref", VStr "x/y/Foo")] "x/y/Foo"
                           (VDict [("Foo", VDict [("type", VStr "string")])])
                           eq_refl))
             [("$ref", VStr "#/definitions/Foo"); ("title", VStr "t")]
             "#/definitions/Foo");
      reflexivity.
  - apply (proj2 (proj2 (@resolve_pointer_segments 3 [("$ref", VStr "#")] "#"
                           (VDict [("Foo", VDict [("type", VStr "string")])])
                           eq_refl)));
      simpl; lia.
Defined.

Example resolve_other_prefix :
  _resolve_type_refs_in_schema 3 (VDict [("$ref", VStr "x/y/Foo")])
    (VDict [("Foo", VDict [("type", VStr "string")])])
  = Ok (VDict [("type", VStr "string")]).
Proof. reflexivity. Qed.

(** X4. A mapping whose pointer leads to a mapping with the same pointer is
    never resolved: the recursion does not end, at any depth there is no
    result and no exception. *)
Theorem resolve_self_reference_diverges :
  forall d d' pointer definitions,
    dict_get "$ref" d = Some (VStr pointer) ->
    follow_path (skipn 2 (split "/" pointer)) definitions = Ok (VDict d') ->
    dict_get "$ref" d' = Some (VStr pointer) ->
    forall fuel,
      _resolve_type_refs_in_schema fuel (VDict d) definitions = OutOfFuel.
Proof.
  intros d d' pointer definitions Hd Hp Hd' fuel.
  assert (H' : forall n,
             _resolve_type_refs_in_schema n (VDict d') definitions
             = OutOfFuel).
  { intros n. induction n as [|f IH]; [reflexivity|].
    rewrite (resolve_ref_eq f d' definitions Hd'), Hp. exact IH. }
  destruct fuel as [|f]; [reflexivity|].
  rewrite (resolve_ref_eq f d definitions Hd), Hp. apply H'.
Qed.

Lemma resolve_self_reference_diverges_witness :
  _resolve_type_refs_in_schema 1000
    (VDict [("$ref", VStr "#/definitions/A")])
    (VDict [("A", VDict [("$ref", VStr "#/definitions/A")])])
  = OutOfFuel.
Proof.
  apply (@resolve_self_reference_diverges
           [("$ref", VStr "#/definitions/A")]
           [("$ref", VStr "#/definitions/A")]
           "#/definitions/A"
           (VDict [("A", VDict [("$ref", VStr "#/definitions/A")])]));
    reflexivity.
Defined.

(** ** Encoding *)

Ltac explicit_keys :=
  repeat match goal with
         | |- _ /\ _ => split
         | |- NoDup _ => constructor
         | |- ~ In _ _ => simpl; intuition discriminate
         | |- incl _ _ => intros ? ?; simpl in *; tauto
         | |- _ = _ => reflexivity
         end.

(** X5. The keys of an encoded document are distinct, they are among the
    fields of the branch that the node's kind (and enum) selects, no key is
    mapped to [None], [default] is always among them and [type] is exactly
    when the node has a kind. *)
Theorem to_dict_shape :
  forall (repr : value -> string) (n : JSONSchema),
    NoDup (map fst (to_dict repr n))
    /\ incl (map fst (to_dict repr n)) (fields_of_kind n)
    /\ (forall k, dict_get k (to_dict repr n) <> Some VNone)
    /\ dict_has "default" (to_dict repr n) = true
    /\ dict_has "type" (to_dict repr n)
       = match type n with Some _ => true | None => false end.
Proof.
  intros repr n.
  split; [|split; [|split; [|split]]].
  - case_node n; explicit_keys.
  - unfold fields_of_kind. case_node n; explicit_keys.
  - intros k. apply to_dict_no_null.
  - unfold dict_has. rewrite to_dict_default. reflexivity.
  - unfold dict_has. case_node n; reflexivity.
Qed.

(** ** Decoding *)

Lemma to_dict_minimum_absent (repr : value -> string) (n : JSONSchema) :
  dict_get "minimum" (to_dict repr n) = None.
Proof. case_node n; reflexivity. Qed.

(** X6. Whatever the node, its lower bound does not survive the codec: the
    encoder writes it under [minumum], the decoder reads [minimum], so a
    node decoded from an encoding has no [minimum]. *)
Theorem minimum_never_decoded :
  forall (repr : value -> string) (literal_eval : string -> result value)
         (fuel : nat) (n n' : JSONSchema),
    from_dict literal_eval fuel (VDict (to_dict repr n)) = Ok n' ->
    minimum n' = None.
Proof.
  intros repr literal_eval fuel n n' H.
  destruct fuel as [|fuel]; [discriminate|]. cbn [from_dict] in H.
  unfold get_or in H. rewrite to_dict_no_definitions in H. cbn [bind] in H.
  step H as resolved Hres.
  destruct fuel as [|fuel]; [discriminate|].
  rewrite (resolve_mapping_eq fuel _ _ (to_dict_no_ref repr n)) in Hres.
  step Hres as d' Hd'. injection Hres as <-.
  assert (Hmin : get (VDict d') "minimum" = Ok VNone).
  { cbn [get].
    rewrite (dict_get_keys "minimum" (to_dict repr n) d'
               (map_values_keys _ _ Hd') (to_dict_minimum_absent repr n)).
    reflexivity. }
  do 9 (apply bind_ok in H; destruct H as (? & _ & H)).
  rewrite Hmin in H. cbn [bind] in H.
  do 6 (apply bind_ok in H; destruct H as (? & _ & H)).
  cbn [validate_opt_number validate_opt_int bind] in H.
  do 3 (apply bind_ok in H; destruct H as (? & _ & H)).
  injection H as <-. reflexivity.
Qed.

Lemma minimum_never_decoded_witness :
  minimum (mkJSONSchema None (Some INTEGER) None false VNone None None
                        None None (Some 9%Z) None None) = None.
Proof.
  apply (@minimum_never_decoded repr_lit literal_eval_lit 4
           bounded_integer_node).
  reflexivity.
Defined.

(** X7. In a node that [from_dict] returns, [required] is false,
    [properties] is present exactly when the kind is [object], and
    [additional_properties] is present only when the kind is [object]. *)
Theorem from_dict_node_invariants :
  forall (literal_eval : string -> result value) (fuel : nat)
         (schema : value) (n : JSONSchema),
    from_dict literal_eval fuel schema = Ok n ->
    required n = false
    /\ (properties n <> None <-> type n = Some OBJECT)
    /\ (additional_properties n <> None -> type n = Some OBJECT).
Proof.
  intros literal_eval fuel schema n H.
  destruct fuel as [|fuel]; [discriminate|]. cbn [from_dict] in H.
  step H as definitions Hdefs. step H as resolved Hres.
  step H as description_ Hdesc. step H as type_ Htype.
  do 5 (apply bind_ok in H; destruct H as (? & _ & H)).
  step H as properties_ Hprops. step H as additional_ Hadd.
  do 5 (apply bind_ok in H; destruct H as (? & _ & H)).
  step H as ty Hty.
  do 5 (apply bind_ok in H; destruct H as (? & _ & H)).
  injection H as <-. cbn [required properties additional_properties type].
  pose proof (validate_opt_Type_object _ Hty) as Hobj.
  destruct (value_eqb type_ (VStr "object")) eqn:E.
  - assert (ty = Some OBJECT) by (apply Hobj; reflexivity). subst ty.
    repeat split; try reflexivity.
    intros _ Hp. subst properties_.
    destruct resolved; try discriminate.
    step Hprops as ps Hps. discriminate.
  - assert (Hne : ty <> Some OBJECT)
      by (intros Heq; apply Hobj in Heq; discriminate).
    injection Hprops as <-. injection Hadd as <-.
    repeat split; try reflexivity; intros Hp; contradiction.
Qed.

Lemma from_dict_node_invariants_witness :
  required (mkJSONSchema None (Some OBJECT) None false VNone None
              (Some [("a", string_prop true); ("b", integer_prop false)])
              None None None None None) = false
  /\ (properties (mkJSONSchema None (Some OBJECT) None false VNone None
                    (Some [("a", string_prop true); ("b", integer_prop false)])
                    None None None None None) <> None
      <-> type (mkJSONSchema None (Some OBJECT) None false VNone None
                  (Some [("a", string_prop true); ("b", integer_prop false)])
                  None None None None None) = Some OBJECT)
  /\ (additional_properties
        (mkJSONSchema None (Some OBJECT) None false VNone None
           (Some [("a", string_prop true); ("b", integer_prop false)])
           None None None None None) <> None ->
      type (mkJSONSchema None (Some OBJECT) None false VNone None
              (Some [("a", string_prop true); ("b", integer_prop false)])
              None None None None None) = Some OBJECT).
Proof.
  apply (@from_dict_node_invariants literal_eval_lit 6
           (VDict required_example)).
  reflexivity.
Defined.

(** X8. The properties that [parse_properties] returns have the names of
    the document's [properties] mapping, in the same order; without a
    [properties] key there are none. *)
Theorem parse_properties_names :
  forall (literal_eval : string -> result value) (fuel : nat)
         (schema_node : dict) (props : list (string * JSONSchema)),
    parse_properties literal_eval fuel schema_node = Ok props ->
    map fst props
    = match dict_get "properties" schema_node with
      | Some (VDict ps) => map fst ps
      | _ => []
      end.
Proof. exact parse_properties_keys. Qed.

Lemma parse_properties_names_witness :
  map fst [("a", string_prop true); ("b", integer_prop false)]
  = match dict_get "properties" required_example with
    | Some (VDict ps) => map fst ps
    | _ => []
    end.
Proof.
  apply (@parse_properties_names literal_eval_lit 3 required_example).
  reflexivity.
Defined.

(** X9. In a document that has a [type], a [default] that is true and that
    [ast.literal_eval] does not read makes [from_dict] raise the exception
    of [ast.literal_eval]: [ValueError] when the default is not a string,
    and for a string whatever [ast.literal_eval] raises for that text
    ([SyntaxError] for text that does not parse). *)
Theorem from_dict_bad_default :
  forall (literal_eval : string -> result value) (fuel : nat)
         (schema definitions : value) (node : dict) (t d : value) (e : exn),
    get_or schema "definitions" (VDict []) = Ok definitions ->
    _resolve_type_refs_in_schema fuel schema definitions = Ok (VDict node) ->
    dict_get "type" node = Some t ->
    dict_get "default" node = Some d ->
    truthy d = true ->
    literal_eval_value literal_eval d = Raise e ->
    from_dict literal_eval (S fuel) schema = Raise e
    /\ ((forall s, d <> VStr s) -> e = ValueError)
    /\ (forall s, d = VStr s -> literal_eval s = Raise e).
Proof.
  intros literal_eval fuel schema definitions node t d e
         Hdefs Hres Ht Hd Htr Hbad.
  split; [|split].
  - cbn [from_dict]. rewrite Hdefs. cbn [bind]. rewrite Hres.
    cbn [bind get subscript]. rewrite Ht, Hd.
    destruct (dict_get "description" node); cbn [bind]; rewrite Htr, Hbad;
      reflexivity.
  - intros Hns. destruct d as [| | |s| |]; cbn in Hbad;
      try (injection Hbad as <-; reflexivity).
    exfalso. apply (Hns s). reflexivity.
  - intros s ->. exact Hbad.
Qed.

Lemma from_dict_bad_default_witness :
  (from_dict literal_eval_lit 3
     (VDict [("type", VStr "integer"); ("default", VInt 5)])
   = Raise ValueError
   /\ ((forall s, VInt 5 <> VStr s) -> ValueError = ValueError)
   /\ (forall s, VInt 5 = VStr s -> literal_eval_lit s = Raise ValueError))
  /\ (from_dict literal_eval_lit 3
        (VDict [("type", VStr "integer"); ("default", VStr "hello world")])
      = Raise SyntaxError
      /\ ((forall s, VStr "hello world" <> VStr s) -> SyntaxError = ValueError)
      /\ (forall s, VStr "hello world" = VStr s
                    -> literal_eval_lit s = Raise SyntaxError)).
Proof.
  split.
  - apply (@from_dict_bad_default literal_eval_lit 2
             (VDict [("type", VStr "integer"); ("default", VInt 5)])
             (VDict [])
             [("type", VStr "integer"); ("default", VInt 5)]
             (VStr "integer") (VInt 5) ValueError);
      reflexivity.
  - apply (@from_dict_bad_default literal_eval_lit 2
             (VDict [("type", VStr "integer"); ("default", VStr "hello world")])
             (VDict [])
             [("type", VStr "integer"); ("default", VStr "hello world")]
             (VStr "integer") (VStr "hello world") SyntaxError);
      reflexivity.
Defined.

(** ** Projections *)

(** X10. [python_type] fails exactly when following [items] through arrays
    leads to an object with declared properties, and then with
    [NotImplementedError]; on every other node it returns a type name. *)
Theorem python_type_result :
  forall (repr : value -> string) (n : JSONSchema),
    if typed_object_in_items n
    then python_type repr n = Raise NotImplementedError
    else exists s, python_type repr n = Ok s.
Proof.
  intros repr n.
  induction n as [d t e r df i ps a mn mx mni mxi IHi _ _]
    using JSONSchema_ind'.
  destruct t as [[]|]; cbn;
    try (eexists; reflexivity);
    try (destruct e as [[|v e]|]; eexists; reflexivity).
  - destruct i as [i|]; [|eexists; reflexivity].
    destruct (typed_object_in_items i).
    + rewrite IHi. reflexivity.
    + destruct IHi as [s Hs]. rewrite Hs. eexists; reflexivity.
  - destruct ps as [[|p ps]|]; try reflexivity; eexists; reflexivity.
Qed.

Lemma mapM_total {A B : Type} (f : A -> result B) (l : list A) :
  (forall x, In x l -> exists y, f x = Ok y) -> exists ys, mapM f l = Ok ys.
Proof.
  induction l as [|x l IH]; intros H; simpl.
  - eexists; reflexivity.
  - destruct (H x (or_introl eq_refl)) as [y Hy]. rewrite Hy. simpl.
    destruct IH as [ys Hys]; [intros z Hz; apply H; right; assumption|].
    rewrite Hys. eexists; reflexivity.
Qed.

Lemma interface_with_ok (indent : string -> string -> string)
    (ts : JSONSchema -> result string) (n : JSONSchema) (name : string) :
  type n = Some OBJECT ->
  (forall ps np, properties n = Some ps -> In np ps ->
                 exists s, ts (snd np) = Ok s) ->
  exists s, to_typescript_object_interface_with indent ts n name = Ok s.
Proof.
  intros Ht Hts. unfold to_typescript_object_interface_with, type_is.
  rewrite Ht. cbn [Type_eqb Type_value String.eqb Ascii.eqb Bool.eqb negb].
  destruct (properties n) as [[|p ps]|] eqn:Ep; try (eexists; reflexivity).
  destruct (@mapM_total _ _
              (fun np =>
                 t <- ts (snd np) ;;
                 Ok (List.app
                       match description (snd np) with
                       | Some (String _ _ as d) => ["// " ++ d]
                       | _ => []
                       end
                       [fst np ++ ": " ++ t ++ ";"]))
              (p :: ps)) as [attrs Hattrs].
  - intros np Hnp. destruct (Hts _ np eq_refl Hnp) as [s Hs].
    rewrite Hs. eexists; reflexivity.
  - rewrite Hattrs. eexists; reflexivity.
Qed.

Lemma typescript_type_object_eq repr indent n :
  type n = Some OBJECT ->
  typescript_type repr indent n
  = match properties n with
    | Some (_ :: _) =>
        to_typescript_object_interface_with indent
          (typescript_type repr indent) n ""
    | _ => Ok "Record<string, any>"
    end.
Proof. intros H. destruct n; simpl in H; subst; reflexivity. Qed.

Lemma typescript_type_ok (repr : value -> string)
    (indent : string -> string -> string) (n : JSONSchema) :
  exists s, typescript_type repr indent n = Ok s.
Proof.
  induction n as [n IHi IHps] using JSONSchema_children_ind.
  destruct (type n) as [t|] eqn:Ht.
  2: { destruct n; simpl in Ht; subst; eexists; reflexivity. }
  destruct t.
  3: { rewrite (typescript_type_object_eq repr indent n Ht).
       destruct (properties n) as [[|p ps]|] eqn:Ep;
         try (eexists; reflexivity).
       apply interface_with_ok; [assumption|].
       intros ps' np Hps' Hnp. rewrite Ep in Hps'.
       eapply IHps; eassumption. }
  2: { destruct n as [d t e r df i ps a mn mx mni mxi]. simpl in Ht. subst t.
       cbn. destruct i as [i|]; [|eexists; reflexivity].
       destruct (IHi i eq_refl) as [s Hs]. cbn in Hs. rewrite Hs.
       eexists; reflexivity. }
  all: destruct n as [d t e r df i ps a mn mx mni mxi]; simpl in Ht; subst t;
    cbn; try (eexists; reflexivity);
    destruct e as [[|v e]|]; eexists; reflexivity.
Qed.

(** X11. [typescript_type] never raises: every node, whatever its kind,
    enum, items and properties, projects to some TypeScript type. *)
Theorem typescript_type_never_raises :
  forall (repr : value -> string) (indent : string -> string -> string)
         (n : JSONSchema),
    exists s, typescript_type repr indent n = Ok s.
Proof. exact typescript_type_ok. Qed.

Lemma to_typescript_object_interface_ok repr indent n name :
  type n = Some OBJECT ->
  exists s, to_typescript_object_interface repr indent n name = Ok s.
Proof.
  intros Ht. apply interface_with_ok; [assumption|].
  intros ps np _ _. apply typescript_type_ok.
Qed.

(** X12. [to_typescript_object_interface] raises [NotImplementedError] on
    every node that is not an object, whatever the name, and returns an
    interface for every object; with a name that is not empty, the result is
    the unnamed interface behind [interface <name> ]. *)
Theorem to_typescript_object_interface_result :
  forall (repr : value -> string) (indent : string -> string -> string)
         (n : JSONSchema),
    (type n <> Some OBJECT ->
     forall name,
       to_typescript_object_interface repr indent n name
       = Raise NotImplementedError)
    /\ (type n = Some OBJECT ->
        exists body,
          to_typescript_object_interface repr indent n "" = Ok body
          /\ forall c name,
               to_typescript_object_interface repr indent n (String c name)
               = Ok (("interface " ++ String c name ++ " ") ++ body)).
Proof.
  intros repr indent n. split.
  - intros Ht name. unfold to_typescript_object_interface,
      to_typescript_object_interface_with, type_is.
    destruct (type n) as [[]|]; try reflexivity. congruence.
  - intros Ht.
    destruct (to_typescript_object_interface_ok repr indent n "" Ht)
      as [body Hbody].
    exists body. split; [exact Hbody|]. intros c name.
    unfold to_typescript_object_interface,
      to_typescript_object_interface_with, type_is in *.
    rewrite Ht in *.
    cbn [Type_eqb Type_value String.eqb Ascii.eqb Bool.eqb negb] in *.
    step Hbody as attributes_string Hattr. rewrite Hattr. cbn [bind].
    injection Hbody as <-.
    reflexivity.
Qed.

Lemma to_typescript_object_interface_result_witness :
  (forall name,
      to_typescript_object_interface repr_lit indent_lit (string_prop false)
        name
      = Raise NotImplementedError)
  /\ exists body,
       to_typescript_object_interface repr_lit indent_lit person_node ""
       = Ok body
       /\ forall c name,
            to_typescript_object_interface repr_lit indent_lit person_node
              (String c name)
            = Ok (("interface " ++ String c name ++ " ") ++ body).
Proof.
  split.
  - apply (proj1 (@to_typescript_object_interface_result repr_lit indent_lit
                    (string_prop false))).
    discriminate.
  - apply (proj2 (@to_typescript_object_interface_result repr_lit indent_lit
                    person_node)).
    reflexivity.
Defined.

Example string_interface_unnamed :
  to_typescript_object_interface repr_lit indent_lit (string_prop false) ""
  = Raise NotImplementedError.
Proof. reflexivity. Qed.

Example person_interface :
  to_typescript_object_interface repr_lit indent_lit person_node "Person"
  = Ok ("interface Person {" ++ newline
        ++ "  name: string;" ++ newline
        ++ "  // in years" ++ newline
        ++ "  age: number;" ++ newline ++ "}").
Proof. reflexivity. Qed.

(** ** Inference *)

Lemma from_python_type_NoneType literal_eval fuel :
  from_python_type literal_eval fuel T_NoneType = Raise TypeError.
Proof. reflexivity. Qed.

(** An alias is inferred only when it is [Optional[T0]] for an inferred
    [T0]; the node is then that of [T0], not required. *)
Lemma from_python_type_alias literal_eval fuel o args n :
  from_python_type literal_eval fuel (T_alias o args) = Ok n ->
  o = O_Union
  /\ exists T0 n0,
       args = [T0; T_NoneType]
       /\ from_python_type literal_eval fuel T0 = Ok n0
       /\ n = set_required false n0.
Proof.
  intros H. cbn [from_python_type] in H.
  cbn [table_get origin_is get_origin get_args] in H.
  destruct o; cbn [bind issubclass_BaseModel] in H; try discriminate.
  split; [reflexivity|].
  step H as is_optional Hopt. destruct is_optional.
  2: { discriminate. }
  destruct args as [|a [|b [|c rest]]].
  - discriminate.
  - cbn in Hopt. injection Hopt as Hopt.
    destruct a; try discriminate; cbn in H; discriminate.
  - cbn in Hopt. injection Hopt as Hopt. destruct b; try discriminate.
    cbn [removelast List.length Nat.ltb Nat.leb] in H.
    step H as n0 Hn0. injection H as <-.
    exists a, n0. repeat split. exact Hn0.
  - assert (Hlen : (1 <? List.length (removelast (a :: b :: c :: rest)))%nat
                   = true).
    { cbn [removelast]. destruct rest; reflexivity. }
    rewrite Hlen in H. discriminate.
Qed.

(** X13. [from_python_type] returns a node only for a primitive type, a
    [BaseModel] subclass, a [TypedDict] class, or [Optional[T]]: the classes
    [list], [dict], [NoneType] and any other class, and every subscripted or
    [typing] alias other than [Optional[T]] ([list[...]], [dict[...]],
    unions of several types), are rejected. *)
Theorem from_python_type_accepts :
  forall (literal_eval : string -> result value) (fuel : nat) (T : PyType)
         (n : JSONSchema),
    from_python_type literal_eval fuel T = Ok n ->
    match T with
    | T_prim _ | T_BaseModel _ | T_TypedDict _ => True
    | T_alias o args => o = O_Union /\ exists T0, args = [T0; T_NoneType]
    | T_NoneType | T_list | T_dict | T_class => False
    end.
Proof.
  intros literal_eval fuel T n H.
  destruct T as [p| | | |schema|annotations| |o args];
    try exact I; try discriminate H.
  destruct (from_python_type_alias _ _ _ _ H) as (Ho & T0 & n0 & Hargs & _).
  split; [assumption | exists T0; assumption].
Qed.

Lemma from_python_type_accepts_witness :
  O_Union = O_Union
  /\ exists T0, [T_prim py_int; T_NoneType] = [T0; T_NoneType].
Proof.
  apply (@from_python_type_accepts literal_eval_lit 0
           (T_alias O_Union [T_prim py_int; T_NoneType])
           (mkJSONSchema None (Some INTEGER) None false VNone None None None
                         None None None None)).
  reflexivity.
Defined.

(** X14. An inferred node is required exactly when the type is not
    [Optional[...]]. *)
Theorem from_python_type_required :
  forall (literal_eval : string -> result value) (fuel : nat) (T : PyType)
         (n : JSONSchema),
    from_python_type literal_eval fuel T = Ok n ->
    required n = negb (is_Union T).
Proof.
  intros literal_eval fuel T n H.
  destruct T as [p| | | |schema|annotations| |o args];
    try discriminate H.
  - destruct p; cbn in H; injection H as <-; reflexivity.
  - cbn in H. step H as partial_schema Hp. injection H as <-. reflexivity.
  - cbn in H. step H as properties_ Hp. injection H as <-. reflexivity.
  - destruct (from_python_type_alias _ _ _ _ H) as (-> & T0 & n0 & _ & _ & ->).
    reflexivity.
Qed.

Lemma from_python_type_required_witness :
  required (mkJSONSchema None (Some INTEGER) None false VNone None None None
                         None None None None)
  = negb (is_Union (T_alias O_Union [T_prim py_int; T_NoneType])).
Proof.
  apply (@from_python_type_required literal_eval_lit 0).
  reflexivity.
Defined.

(** X15. A [TypedDict] class is inferred as an object whose properties are
    its annotations, name by name in order, each property being the node
    inferred from the annotated type. *)
Theorem from_python_type_TypedDict :
  forall (literal_eval : string -> result value) (fuel : nat)
         (annotations : list (string * PyType)) (n : JSONSchema),
    from_python_type literal_eval fuel (T_TypedDict annotations) = Ok n ->
    type n = Some OBJECT
    /\ additional_properties n = None
    /\ exists props,
         properties n = Some props
         /\ Forall2 (fun a p =>
                       fst p = fst a
                       /\ from_python_type literal_eval fuel (snd a)
                          = Ok (snd p))
                    annotations props.
Proof.
  intros literal_eval fuel annotations n H.
  cbn in H. step H as props Hprops. injection H as <-.
  repeat split. exists props. split; [reflexivity|].
  apply mapM_ok_Forall2 in Hprops.
  eapply Forall2_impl; [|exact Hprops].
  intros [k T] [k' p] Hkp. simpl in Hkp. step Hkp as v Hv.
  injection Hkp as <- <-. split; [reflexivity | exact Hv].
Qed.

Lemma from_python_type_TypedDict_witness :
  type point_node = Some OBJECT
  /\ additional_properties point_node = None
  /\ exists props,
       properties point_node = Some props
       /\ Forall2 (fun a p =>
                     fst p = fst a
                     /\ from_python_type literal_eval_lit 0 (snd a)
                        = Ok (snd p))
                  [ ("x", T_prim py_float);
                    ("label", T_alias O_Union [T_prim py_str; T_NoneType]) ]
                  props.
Proof.
  apply (@from_python_type_TypedDict literal_eval_lit 0).
  reflexivity.
Defined.

(** X16. The Python type name of the node inferred from a primitive type
    is the name of that type: the two tables are inverse to each other. *)
Theorem python_type_of_inferred_primitive :
  forall (literal_eval : string -> result value) (repr : value -> string)
         (fuel : nat) (p : PyPrim),
    exists n,
      from_python_type literal_eval fuel (T_prim p) = Ok n
      /\ required n = true
      /\ python_type repr n = Ok (PyPrim_name p).
Proof.
  intros literal_eval repr fuel p.
  destruct p; eexists; repeat split; reflexivity.
Qed.

(** ** Projections across the codec *)

Lemma Forall2_impl_In {A B : Type} (R Q : A -> B -> Prop) l l' :
  Forall2 R l l' ->
  (forall x y, In x l -> R x y -> Q x y) ->
  Forall2 Q l l'.
Proof.
  induction 1 as [|x y l l' Hxy _ IH]; intros H; constructor.
  - apply H; [left; reflexivity | assumption].
  - apply IH. intros a b Ha. apply H. right; assumption.
Qed.

Lemma mapM_Forall2_eq {A B : Type} (f : A -> result B) l l' :
  Forall2 (fun x y => f x = f y) l l' -> mapM f l = mapM f l'.
Proof.
  induction 1 as [|x y l l' Hxy _ IH]; simpl; [reflexivity|].
  rewrite Hxy, IH. reflexivity.
Qed.

(** Equivalent nodes have the same projections: neither projection looks
    at [required], at [minimum] or at the difference between absent and
    empty properties. *)
Lemma projections_equivalent (repr : value -> string)
    (indent : string -> string -> string) (n : JSONSchema) :
  forall n',
    equivalent n n' ->
    python_type repr n = python_type repr n'
    /\ typescript_type repr indent n = typescript_type repr indent n'.
Proof.
  induction n as [n IHi IHps] using JSONSchema_children_ind.
  intros n' Heq.
  inversion Heq as [? ? Hd Ht He Hdf Hmx Hmi Hma Hitems Hadd Hprops]; subst.
  assert (Hi : match items n, items n' with
               | Some i, Some i' =>
                   python_type repr i = python_type repr i'
                   /\ typescript_type repr indent i
                      = typescript_type repr indent i'
               | None, None => True
               | _, _ => False
               end).
  { inversion Hitems as [Hn Hn'|i i' Hii' Hn Hn']; [exact I|].
    apply (IHi i (eq_sym Hn)). exact Hii'. }
  assert (Hp : Forall2 (fun np np' =>
                          fst np = fst np'
                          /\ description (snd np) = description (snd np')
                          /\ typescript_type repr indent (snd np)
                             = typescript_type repr indent (snd np'))
                       (properties_of n) (properties_of n')).
  { eapply Forall2_impl_In; [exact Hprops|].
    intros np np' Hin (Hk & _ & Hnn'). split; [assumption|].
    unfold properties_of in Hin.
    destruct (properties n) as [ps|] eqn:Ep; [|contradiction].
    destruct (IHps ps np eq_refl Hin _ Hnn') as (_ & Hts).
    split; [|assumption]. inversion Hnn'; assumption. }
  clear IHi IHps Hitems Hprops Heq Hadd.
  unfold properties_of in Hp.
  destruct n as [d t e r df i ps a mn mx mni mxi],
           n' as [d' t' e' r' df' i' ps' a' mn' mx' mni' mxi'].
  cbn [description type enum default maximum minItems maxItems items
       properties] in *.
  subst d' t' e' df' mx' mni' mxi'.
  destruct t as [[]|]; cbn; try (split; reflexivity).
  - (* array *)
    destruct i as [i|], i' as [i'|]; try contradiction;
      [|split; reflexivity].
    destruct Hi as [Hpy Hts]. rewrite Hpy, Hts. split; reflexivity.
  - (* object *)
    assert (Hshape : match ps, ps' with
                     | Some (_ :: _), Some (_ :: _) => True
                     | Some (_ :: _), _ | _, Some (_ :: _) => False
                     | _, _ => True
                     end).
    { destruct ps as [[|p ps]|], ps' as [[|p' ps']|]; inversion Hp; exact I. }
    destruct ps as [[|p ps]|], ps' as [[|p' ps']|]; try contradiction;
      try (split; reflexivity).
    split; [reflexivity|].
    unfold to_typescript_object_interface_with.
    cbn [type_is type negb Type_eqb Type_value String.eqb Ascii.eqb Bool.eqb
         properties].
    rewrite (@mapM_Forall2_eq _ _ _ (p :: ps) (p' :: ps')); [reflexivity|].
    eapply Forall2_impl; [|exact Hp].
    intros np np' (Hk & Hdesc & Hts). rewrite Hk, Hdesc, Hts. reflexivity.
Qed.

(** X17. The projections survive the codec: the node decoded from the
    encoding of a well-formed node has the Python type and the TypeScript
    type of the node that was encoded. *)
Theorem projections_survive_roundtrip :
  forall (repr : value -> string) (literal_eval : string -> result value)
         (indent : string -> string -> string) (n n' : JSONSchema)
         (fuel : nat),
    well_formed repr literal_eval n ->
    height (VDict (to_dict repr n)) + 2 <= fuel ->
    from_dict literal_eval fuel (VDict (to_dict repr n)) = Ok n' ->
    python_type repr n' = python_type repr n
    /\ typescript_type repr indent n' = typescript_type repr indent n.
Proof.
  intros repr literal_eval indent n n' fuel Hwf Hfuel H.
  rewrite (@decode_encode repr literal_eval n Hwf fuel Hfuel) in H.
  injection H as <-.
  destruct (@projections_equivalent repr indent n (decoded n)
              (@decoded_equivalent repr literal_eval n Hwf)) as [Hpy Hts].
  split; symmetry; assumption.
Qed.

Lemma projections_survive_roundtrip_witness :
  python_type repr_lit (decoded roundtrip_node)
  = python_type repr_lit roundtrip_node
  /\ typescript_type repr_lit indent_lit (decoded roundtrip_node)
     = typescript_type repr_lit indent_lit roundtrip_node.
Proof.
  apply (@projections_survive_roundtrip repr_lit literal_eval_lit indent_lit
           roundtrip_node (decoded roundtrip_node) 8).
  - exact roundtrip_node_well_formed.
  - vm_compute. lia.
  - reflexivity.
Defined.

(** ** The resolver over the heap *)

(** X18. What the resolver returns depends only on the documents that its
    arguments stand for, not on how their dicts and lists are shared in
    memory: a run over the heap that returns yields a reference standing for
    the document that the resolver on documents computes, with the same
    depth of recursion. *)
Theorem heap_resolution_agrees :
  forall fuel schema definitions h r h' vs vd,
    Heap.represents h schema vs ->
    Heap.represents h definitions vd ->
    Heap._resolve_type_refs_in_schema fuel schema definitions h = Ok (r, h') ->
    exists vr,
      _resolve_type_refs_in_schema fuel vs vd = Ok vr
      /\ Heap.represents h' r vr.
Proof.
  intros fuel schema definitions h r h' vs vd Hs Hd H.
  exact (HeapTheory.resolve_represents fuel Hs Hd H).
Qed.

Ltac represents_example :=
  repeat first [ eapply Heap.represents_Dict; [reflexivity|]
               | eapply Heap.represents_List; [reflexivity|]
               | apply Forall2_cons
               | apply Forall2_nil
               | split; [reflexivity|]
               | constructor ].

Lemma heap_resolution_agrees_witness :
  exists vr,
    _resolve_type_refs_in_schema 4
      (VList [ VDict [ ("$ref", VStr "#/definitions/Foo");
                       ("title", VStr "dropped") ];
               VInt 1 ])
      (VDict [("Foo", VDict [("type", VStr "string")])])
    = Ok vr
    /\ Heap.represents
         (Heap.example_heap
            ++ [ Heap.ODict [("type", Heap.RStr "string")];
                 Heap.OList [Heap.RObj 4; Heap.RInt 1] ])%list
         (Heap.RObj 5) vr.
Proof.
  apply (@heap_resolution_agrees 4 (Heap.RObj 3) (Heap.RObj 0)
           Heap.example_heap).
  - represents_example.
  - represents_example.
  - reflexivity.
Defined.
